(** * FARM question-answering predictions: [farm/modeling/predictions.py]

    A shallow embedding of the classes [QACandidate] and [QAPred] and the
    properties of span resolution, classification override, document
    promotion, context windows and JSON serialisation.

    Conventions of the embedding.
    - A Python [int] is a [Z]; a Python [str] is a [string], one [ascii] per
      character, so the texts covered are those over code points below 256.
    - A value that may be [None] is an [option].
    - The score, the probability and the no-answer gap are floating-point
      values which the code stores and copies and never inspects; their type
      is the section variable [Num].
    - A method that can raise returns a [result]; a method that assigns to
      fields of [self] returns the updated object; [logger.error] appends a
      record to a log which is returned next to the object. *)

From Stdlib Require Import ZArith List String Ascii Bool Lia.
Import ListNotations.

Set Warnings "-register-all".

Local Open Scope string_scope.
Local Open Scope Z_scope.

(** ** Exceptions *)

Inductive exn : Type :=
| AssertionError
| IndexError.

Inductive result (A : Type) : Type :=
| Ok (a : A)
| Raise (e : exn).

Arguments Ok {A} a.
Arguments Raise {A} e.

Definition bind {A B : Type} (m : result A) (k : A -> result B) : result B :=
  match m with
  | Ok a => k a
  | Raise e => Raise e
  end.

Notation "x <- m ;; k" := (bind m (fun x => k))
  (at level 61, m at next level, right associativity).

(** ** Python built-ins used by the module *)

(** [len(s)] of a [str]. *)
Definition str_len (s : string) : Z := Z.of_nat (String.length s).

(** [len(l)] of a list. *)
Definition list_len {A : Type} (l : list A) : Z := Z.of_nat (List.length l).

(** [l[i]]: a negative index counts from the end, an index outside
    [-len(l), len(l))] raises [IndexError]. *)
Definition getitem {A : Type} (l : list A) (i : Z) : result A :=
  let n := list_len l in
  let j := if i <? 0 then i + n else i in
  if (j <? 0) || (n <=? j) then Raise IndexError
  else match nth_error l (Z.to_nat j) with
       | Some x => Ok x
       | None => Raise IndexError
       end.

(** The bound of a slice, as [PySlice_AdjustIndices] computes it: a negative
    bound has the length added, and the outcome is clipped to [0, len]. *)
Definition slice_bound (n i : Z) : Z :=
  if i <? 0 then Z.max (i + n) 0 else Z.min i n.

(** [s[a:b]]. *)
Definition str_slice (s : string) (a b : Z) : string :=
  let n := str_len s in
  let lo := slice_bound n a in
  let hi := slice_bound n b in
  if lo <? hi then substring (Z.to_nat lo) (Z.to_nat (hi - lo)) s
  else EmptyString.

(** [c.isspace()] on the code points below 256: U+0009..U+000D,
    U+001C..U+0020, U+0085 and U+00A0. *)
Definition isspace (c : ascii) : bool :=
  let n := nat_of_ascii c in
  ((9 <=? n) && (n <=? 13) || (28 <=? n) && (n <=? 32)
   || (n =? 133) || (n =? 160))%nat.

Fixpoint lstrip (s : string) : string :=
  match s with
  | EmptyString => EmptyString
  | String c s' => if isspace c then lstrip s' else s
  end.

Fixpoint rstrip (s : string) : string :=
  match s with
  | EmptyString => EmptyString
  | String c s' =>
      match rstrip s' with
      | EmptyString => if isspace c then EmptyString else String c EmptyString
      | r => String c r
      end
  end.

(** [s.strip()]. *)
Definition strip (s : string) : string := rstrip (lstrip s).

(** Whether the first, and the last, character of [s] is white space. *)
Definition first_is_space (s : string) : bool :=
  match s with
  | EmptyString => false
  | String c _ => isspace c
  end.

Fixpoint last_is_space (s : string) : bool :=
  match s with
  | EmptyString => false
  | String c EmptyString => isspace c
  | String _ s' => last_is_space s'
  end.

(** [int(x / 2)] for an [int] [x]: the true division is exact in binary64
    when [|x| <= 2^53], and [int] truncates towards zero.  Outside that
    range Python rounds the quotient (or raises [OverflowError]); the
    theorems on [create_context] assume [float_exact]. *)
Definition int_half (x : Z) : Z := Z.quot x 2.

Definition float_exact (x : Z) : Prop := Z.abs x <= 2 ^ 53.

(** [x in ["yes", "no"]]. *)
Definition in_yes_no (x : string) : bool :=
  (x =? "yes")%string || (x =? "no")%string.

(** [a != "no_answer"], where [a] may be [None]. *)
Definition differs_from_no_answer (a : option string) : bool :=
  match a with
  | Some s => negb (s =? "no_answer")%string
  | None => true
  end.

Section Predictions.

(** The type of the floating-point values carried through. *)
Variable Num : Type.

(** ** JSON-like values built by [to_json] *)

(** A [dict] is kept as the list of its items in insertion order. *)
Inductive json : Type :=
| JNull
| JStr (s : string)
| JInt (z : Z)
| JNum (x : Num)
| JList (l : list json)
| JDict (items : list (string * json)).

Definition json_of_opt_str (o : option string) : json :=
  match o with
  | Some s => JStr s
  | None => JNull
  end.

(** [d[k]] for a dict kept as an item list. *)
Fixpoint dict_get (items : list (string * json)) (k : string) : option json :=
  match items with
  | [] => None
  | (k', v) :: rest => if (k' =? k)%string then Some v else dict_get rest k
  end.

Definition dict_keys (items : list (string * json)) : list string :=
  map fst items.

(** ** class QACandidate *)

Record QACandidate : Type := mkQACandidate {
  answer_type : string;
  score : Num;
  probability : option Num;
  answer : option string;
  offset_answer_start : Z;
  offset_answer_end : Z;
  answer_support : option string;
  offset_answer_support_start : option Z;
  offset_answer_support_end : option Z;
  context : option string;
  offset_context_start : option Z;
  offset_context_end : option Z;
  offset_unit : string;
  aggregation_level : string;
  n_passages_in_doc : option Z;
  passage_id : option string
}.

(** [QACandidate.__init__]. *)
Definition QACandidate_init (answer_type : string) (score : Num)
    (offset_answer_start offset_answer_end : Z)
    (offset_unit aggregation_level : string)
    (probability : option Num) (n_passages_in_doc : option Z)
    (passage_id : option string) : QACandidate :=
  {| answer_type := answer_type;
     score := score;
     probability := probability;
     answer := None;
     offset_answer_start := offset_answer_start;
     offset_answer_end := offset_answer_end;
     answer_support := None;
     offset_answer_support_start := None;
     offset_answer_support_end := None;
     context := None;
     offset_context_start := None;
     offset_context_end := None;
     offset_unit := offset_unit;
     aggregation_level := aggregation_level;
     n_passages_in_doc := n_passages_in_doc;
     passage_id := passage_id |}.

(** Attribute assignments [self.f = v], one per attribute the methods
    write. *)
Definition set_answer_type (v : string) (c : QACandidate) : QACandidate :=
  mkQACandidate v (score c) (probability c) (answer c)
    (offset_answer_start c) (offset_answer_end c) (answer_support c)
    (offset_answer_support_start c) (offset_answer_support_end c)
    (context c) (offset_context_start c) (offset_context_end c)
    (offset_unit c) (aggregation_level c) (n_passages_in_doc c)
    (passage_id c).

Definition set_probability (v : option Num) (c : QACandidate) : QACandidate :=
  mkQACandidate (answer_type c) (score c) v (answer c)
    (offset_answer_start c) (offset_answer_end c) (answer_support c)
    (offset_answer_support_start c) (offset_answer_support_end c)
    (context c) (offset_context_start c) (offset_context_end c)
    (offset_unit c) (aggregation_level c) (n_passages_in_doc c)
    (passage_id c).

Definition set_answer (v : option string) (c : QACandidate) : QACandidate :=
  mkQACandidate (answer_type c) (score c) (probability c) v
    (offset_answer_start c) (offset_answer_end c) (answer_support c)
    (offset_answer_support_start c) (offset_answer_support_end c)
    (context c) (offset_context_start c) (offset_context_end c)
    (offset_unit c) (aggregation_level c) (n_passages_in_doc c)
    (passage_id c).

Definition set_offset_answer_start (v : Z) (c : QACandidate) : QACandidate :=
  mkQACandidate (answer_type c) (score c) (probability c) (answer c)
    v (offset_answer_end c) (answer_support c)
    (offset_answer_support_start c) (offset_answer_support_end c)
    (context c) (offset_context_start c) (offset_context_end c)
    (offset_unit c) (aggregation_level c) (n_passages_in_doc c)
    (passage_id c).

Definition set_offset_answer_end (v : Z) (c : QACandidate) : QACandidate :=
  mkQACandidate (answer_type c) (score c) (probability c) (answer c)
    (offset_answer_start c) v (answer_support c)
    (offset_answer_support_start c) (offset_answer_support_end c)
    (context c) (offset_context_start c) (offset_context_end c)
    (offset_unit c) (aggregation_level c) (n_passages_in_doc c)
    (passage_id c).

Definition set_answer_support (v : option string) (c : QACandidate)
    : QACandidate :=
  mkQACandidate (answer_type c) (score c) (probability c) (answer c)
    (offset_answer_start c) (offset_answer_end c) v
    (offset_answer_support_start c) (offset_answer_support_end c)
    (context c) (offset_context_start c) (offset_context_end c)
    (offset_unit c) (aggregation_level c) (n_passages_in_doc c)
    (passage_id c).

Definition set_offset_answer_support_start (v : option Z) (c : QACandidate)
    : QACandidate :=
  mkQACandidate (answer_type c) (score c) (probability c) (answer c)
    (offset_answer_start c) (offset_answer_end c) (answer_support c)
    v (offset_answer_support_end c)
    (context c) (offset_context_start c) (offset_context_end c)
    (offset_unit c) (aggregation_level c) (n_passages_in_doc c)
    (passage_id c).

Definition set_offset_answer_support_end (v : option Z) (c : QACandidate)
    : QACandidate :=
  mkQACandidate (answer_type c) (score c) (probability c) (answer c)
    (offset_answer_start c) (offset_answer_end c) (answer_support c)
    (offset_answer_support_start c) v
    (context c) (offset_context_start c) (offset_context_end c)
    (offset_unit c) (aggregation_level c) (n_passages_in_doc c)
    (passage_id c).

Definition set_aggregation_level (v : string) (c : QACandidate)
    : QACandidate :=
  mkQACandidate (answer_type c) (score c) (probability c) (answer c)
    (offset_answer_start c) (offset_answer_end c) (answer_support c)
    (offset_answer_support_start c) (offset_answer_support_end c)
    (context c) (offset_context_start c) (offset_context_end c)
    (offset_unit c) v (n_passages_in_doc c)
    (passage_id c).

(** [QACandidate.span_to_string]. *)
Definition span_to_string (self : QACandidate) (token_offsets : list Z)
    (clear_text : string) : result (string * Z * Z) :=
  if negb (offset_unit self =? "token")%string then Raise AssertionError
  else
    let start_t := offset_answer_start self in
    let end_t := offset_answer_end self in
    if (start_t =? -1) && (end_t =? -1) then Ok ("", 0, 0)
    else
      let n_tokens := list_len token_offsets in
      let end_t := end_t + 1 in
      let end_t := Z.min end_t n_tokens in
      start_ch <- getitem token_offsets start_t ;;
      end_ch <- (if end_t =? n_tokens then Ok (str_len clear_text)
                 else getitem token_offsets end_t) ;;
      Ok (strip (str_slice clear_text start_ch end_ch), start_ch, end_ch).

(** [QACandidate.add_cls]. *)
Definition add_cls (self : QACandidate) (predicted_class : string)
    : QACandidate :=
  if in_yes_no predicted_class && differs_from_no_answer (answer self) then
    let self := set_answer_support (answer self) self in
    let self := set_answer (Some predicted_class) self in
    let self := set_answer_type predicted_class self in
    let self :=
      set_offset_answer_support_start (Some (offset_answer_start self)) self in
    let self :=
      set_offset_answer_support_end (Some (offset_answer_end self)) self in
    self
  else self.

(** [QACandidate.to_doc_level]. *)
Definition to_doc_level (self : QACandidate) (start end_ : Z) : QACandidate :=
  let self := set_offset_answer_start start self in
  let self := set_offset_answer_end end_ self in
  let self := set_aggregation_level "document" self in
  self.

(** What a call of [logger.error] in [add_answer] reports: the offsets, the
    answer given (none in the first message) and the candidate's context. *)
Inductive log_record : Type :=
| EmptyAnswerWithOffsets (start end_ : Z) (ctx : option string)
| AnswerWithoutOffsets (start end_ : Z) (ans : string) (ctx : option string).

(** [QACandidate.add_answer]: the updated candidate and the records
    logged. *)
Definition add_answer (self : QACandidate) (string : String.string)
    : QACandidate * list log_record :=
  if (string =? "")%string then
    let self := set_answer (Some "no_answer") self in
    if negb (offset_answer_start self =? -1)
       || negb (offset_answer_end self =? -1)
    then (self, [EmptyAnswerWithOffsets (offset_answer_start self)
                   (offset_answer_end self) (context self)])
    else (self, [])
  else
    let self := set_answer (Some string) self in
    if (offset_answer_start self =? -1) || (offset_answer_end self =? -1)
    then (self, [AnswerWithoutOffsets (offset_answer_start self)
                   (offset_answer_end self) string (context self)])
    else (self, []).

(** [QACandidate.to_list]; the five entries are of different types, so the
    list is kept as a tuple. *)
Definition to_list (self : QACandidate)
    : option string * Z * Z * Num * option string :=
  (answer self, offset_answer_start self, offset_answer_end self,
   score self, passage_id self).

(** ** class QAPred (with the attributes of its base class Pred)

    [Pred.context] and [QAPred.aggregation_level] share their names with
    attributes of [QACandidate]; here they are [pred_context] and
    [pred_aggregation_level]. *)

Record QAPred : Type := mkQAPred {
  id : string;
  prediction : list QACandidate;
  pred_context : string;
  question : string;
  token_offsets : list Z;
  context_window_size : Z;
  pred_aggregation_level : string;
  answer_types : list string;
  ground_truth_answer : option string;
  no_answer_gap : Num;
  n_passages : Z
}.

(** The aggregate with another list of candidates. *)
Definition with_prediction (l : list QACandidate) (p : QAPred) : QAPred :=
  mkQAPred (id p) l (pred_context p) (question p) (token_offsets p)
    (context_window_size p) (pred_aggregation_level p) (answer_types p)
    (ground_truth_answer p) (no_answer_gap p) (n_passages p).

(** [QAPred.create_context]. *)
Definition create_context (self : QAPred) (ans_start_ch ans_end_ch : Z)
    (clear_text : string) : string * Z * Z :=
  if (ans_start_ch =? 0) && (ans_end_ch =? 0) then ("", 0, 0)
  else
    let len_text := str_len clear_text in
    let midpoint := int_half (ans_end_ch - ans_start_ch) + ans_start_ch in
    let half_window := int_half (context_window_size self) in
    let context_start_ch := midpoint - half_window in
    let context_end_ch := midpoint + half_window in
    let overhang_start := Z.max 0 (- context_start_ch) in
    let overhang_end := Z.max 0 (context_end_ch - len_text) in
    let context_start_ch := context_start_ch - overhang_end in
    let context_start_ch := Z.max 0 context_start_ch in
    let context_end_ch := context_end_ch + overhang_start in
    let context_end_ch := Z.min len_text context_end_ch in
    (str_slice clear_text context_start_ch context_end_ch,
     context_start_ch, context_end_ch).

(** The width [end - start] of a window returned by [create_context]. *)
Definition window_width (w : string * Z * Z) : Z :=
  let '(_, start, end_) := w in end_ - start.

(** [squad and string == "no_answer"]. *)
Definition is_squad_no_answer (squad : bool) (string : option String.string)
    : bool :=
  squad && match string with
           | Some s => (s =? "no_answer")%string
           | None => false
           end.

(** The body of the [for] loop of [QAPred.answers_to_json]: the dict
    [curr] built for [qa_candidate]. *)
Definition answer_record (self : QAPred) (id : string) (squad : bool)
    (qa_candidate : QACandidate) : result json :=
  let string := answer qa_candidate in
  span <- span_to_string qa_candidate (token_offsets self)
            (pred_context self) ;;
  let '(_, ans_start_ch, ans_end_ch) := span in
  let '(context_string, context_start_ch, context_end_ch) :=
    create_context self ans_start_ch ans_end_ch (pred_context self) in
  let string :=
    if is_squad_no_answer squad string then Some "" else string in
  Ok (JDict [("score", JNum (score qa_candidate));
             ("probability", JNull);
             ("answer", json_of_opt_str string);
             ("offset_answer_start", JInt ans_start_ch);
             ("offset_answer_end", JInt ans_end_ch);
             ("context", JStr context_string);
             ("offset_context_start", JInt context_start_ch);
             ("offset_context_end", JInt context_end_ch);
             ("document_id", JStr id)]).

(** The loop of [QAPred.answers_to_json] over the candidates still to
    visit; [ret] is the list built so far. *)
Fixpoint answers_loop (self : QAPred) (id : string) (squad : bool)
    (todo : list QACandidate) (ret : list json) : result (list json) :=
  match todo with
  | [] => Ok ret
  | qa_candidate :: todo' =>
      curr <- answer_record self id squad qa_candidate ;;
      answers_loop self id squad todo' (ret ++ [curr])
  end.

(** [QAPred.answers_to_json]. *)
Definition answers_to_json (self : QAPred) (id : string) (squad : bool)
    : result (list json) :=
  answers_loop self id squad (prediction self) [].

(** [QAPred.to_json]. *)
Definition to_json (self : QAPred) (squad : bool) : result json :=
  answers <- answers_to_json self (id self) squad ;;
  Ok (JDict
        [("task", JStr "qa");
         ("predictions",
          JList
            [JDict [("question", JStr (question self));
                    ("question_id", JStr (id self));
                    ("ground_truth",
                     json_of_opt_str (ground_truth_answer self));
                    ("answers", JList answers);
                    ("no_ans_gap", JNum (no_answer_gap self))]])]).

(** [QAPred.to_squad_eval]. *)
Definition to_squad_eval (self : QAPred) : result json := to_json self true.

(** ** Well-formed inputs and output formats

    What the callers of the module supply: a token offset table whose
    entries do not decrease and lie inside the text, and candidates that
    are either the no-answer pair (-1, -1) or a span of token indices. *)

Fixpoint nondecreasing (l : list Z) : bool :=
  match l with
  | [] => true
  | a :: t =>
      match t with
      | [] => true
      | b :: _ => (a <=? b) && nondecreasing t
      end
  end.

Definition offsets_in_text (toks : list Z) (text : string) : bool :=
  forallb (fun o => (0 <=? o) && (o <=? str_len text)) toks.

Definition is_no_answer_span (c : QACandidate) : bool :=
  (offset_answer_start c =? -1) && (offset_answer_end c =? -1).

Definition is_token_span (n_tokens : Z) (c : QACandidate) : bool :=
  (0 <=? offset_answer_start c)
  && (offset_answer_start c <=? offset_answer_end c)
  && (offset_answer_end c <? n_tokens).

Definition well_formed_candidate (n_tokens : Z) (c : QACandidate) : bool :=
  (offset_unit c =? "token")%string
  && (is_no_answer_span c || is_token_span n_tokens c).

(** The candidate's span, once resolved, has a length [end - start] for
    which [int(x / 2)] in [create_context] is exact (see [int_half]); a
    candidate on which [span_to_string] raises never reaches
    [create_context]. *)
Definition exact_span (self : QAPred) (c : QACandidate) : Prop :=
  forall (t : string) (s e : Z),
    span_to_string c (token_offsets self) (pred_context self) = Ok (t, s, e)
    -> float_exact (e - s).

(** A record of [answers_to_json] rewritten to the SQuAD format: under the
    key answer the string "no_answer" becomes the empty string. *)
Definition squad_item (kv : string * json) : string * json :=
  match kv with
  | (k, JStr s) =>
      if (k =? "answer")%string && (s =? "no_answer")%string
      then (k, JStr "") else kv
  | _ => kv
  end.

Definition squad_record (rec : json) : json :=
  match rec with
  | JDict items => JDict (map squad_item items)
  | _ => rec
  end.

(** * Properties *)

(** ** Built-ins *)

Lemma in_yes_no_true (x : string) :
  in_yes_no x = true <-> x = "yes" \/ x = "no".
Proof.
  unfold in_yes_no. rewrite orb_true_iff, !String.eqb_eq. tauto.
Qed.

Lemma in_yes_no_false (x : string) :
  in_yes_no x = false <-> x <> "yes" /\ x <> "no".
Proof.
  unfold in_yes_no. rewrite orb_false_iff, !String.eqb_neq. tauto.
Qed.

Lemma differs_from_no_answer_true (a : option string) :
  differs_from_no_answer a = true <-> a <> Some "no_answer".
Proof.
  destruct a as [s|]; simpl.
  - rewrite negb_true_iff, String.eqb_neq. split; congruence.
  - split; [discriminate | reflexivity].
Qed.

Lemma differs_from_no_answer_false (a : option string) :
  differs_from_no_answer a = false <-> a = Some "no_answer".
Proof.
  destruct a as [s|]; simpl.
  - rewrite negb_false_iff, String.eqb_eq. split; congruence.
  - split; discriminate.
Qed.

Lemma getitem_nonneg (A : Type) (l : list A) (i : Z) (d : A) :
  0 <= i < list_len l -> getitem l i = Ok (nth (Z.to_nat i) l d).
Proof.
  unfold getitem, list_len. intros [H0 Hn].
  destruct (Z.ltb_spec i 0); [lia|].
  destruct (Z.ltb_spec i 0); [lia|].
  destruct (Z.leb_spec (Z.of_nat (List.length l)) i); [lia|]. simpl.
  rewrite (nth_error_nth' l d) by lia. reflexivity.
Qed.

Lemma getitem_negative (A : Type) (l : list A) (i : Z) (d : A) :
  - list_len l <= i < 0 ->
  getitem l i = Ok (nth (Z.to_nat (i + list_len l)) l d).
Proof.
  unfold getitem, list_len. intros [H0 Hn].
  destruct (Z.ltb_spec i 0); [|lia].
  destruct (Z.ltb_spec (i + Z.of_nat (List.length l)) 0); [lia|].
  destruct (Z.leb_spec (Z.of_nat (List.length l))
              (i + Z.of_nat (List.length l))); [lia|]. simpl.
  rewrite (nth_error_nth' l d) by lia. reflexivity.
Qed.

Lemma getitem_out_of_range (A : Type) (l : list A) (i : Z) :
  i < - list_len l \/ list_len l <= i -> getitem l i = Raise IndexError.
Proof.
  unfold getitem, list_len. intros H.
  destruct (Z.ltb_spec i 0).
  - destruct (Z.ltb_spec (i + Z.of_nat (List.length l)) 0); [reflexivity|lia].
  - destruct (Z.ltb_spec i 0); [lia|].
    destruct (Z.leb_spec (Z.of_nat (List.length l)) i); [reflexivity|lia].
Qed.

Lemma getitem_raises (A : Type) (l : list A) (i : Z) (e : exn) :
  getitem l i = Raise e -> e = IndexError.
Proof.
  unfold getitem.
  destruct ((_ <? 0) || _); [congruence|].
  destruct (nth_error _ _); congruence.
Qed.

Lemma length_substring (s : string) (n m : nat) :
  (n + m <= String.length s)%nat -> String.length (substring n m s) = m.
Proof.
  revert n m. induction s as [|c s IH]; intros n m H; simpl in *.
  - assert (n = 0%nat) by lia. assert (m = 0%nat) by lia. subst.
    reflexivity.
  - destruct n as [|n].
    + destruct m as [|m]; [reflexivity|]. simpl. f_equal.
      apply IH. simpl. lia.
    + apply IH. lia.
Qed.

Lemma substring_all (s : string) : substring 0 (String.length s) s = s.
Proof.
  induction s as [|c s IH]; simpl; [reflexivity|]. now rewrite IH.
Qed.

Lemma str_len_nonneg (s : string) : 0 <= str_len s.
Proof.
  unfold str_len. lia.
Qed.

Lemma str_slice_len (s : string) (a b : Z) :
  0 <= a -> a <= b -> b <= str_len s -> str_len (str_slice s a b) = b - a.
Proof.
  unfold str_slice, slice_bound, str_len. intros Ha Hab Hb.
  destruct (Z.ltb_spec a 0); [lia|].
  destruct (Z.ltb_spec b 0); [lia|].
  rewrite !Z.min_l by lia.
  destruct (Z.ltb_spec a b).
  - rewrite length_substring by lia. lia.
  - simpl. lia.
Qed.

Lemma str_slice_all (s : string) (b : Z) :
  str_len s <= b -> str_slice s 0 b = s.
Proof.
  unfold str_slice, slice_bound, str_len. intros Hb.
  change (0 <? 0) with false. cbv iota.
  destruct (Z.ltb_spec b 0); [lia|].
  replace (Z.min 0 (Z.of_nat (String.length s))) with 0 by lia.
  replace (Z.min b (Z.of_nat (String.length s)))
    with (Z.of_nat (String.length s)) by lia.
  destruct (Z.ltb_spec 0 (Z.of_nat (String.length s))).
  - rewrite Z.sub_0_r, Nat2Z.id. apply substring_all.
  - destruct s; [reflexivity|]. simpl in *. lia.
Qed.

Lemma lstrip_length (s : string) :
  (String.length (lstrip s) <= String.length s)%nat.
Proof.
  induction s as [|c s IH]; simpl; [lia|].
  destruct (isspace c); simpl; lia.
Qed.

Lemma rstrip_length (s : string) :
  (String.length (rstrip s) <= String.length s)%nat.
Proof.
  induction s as [|c s IH]; simpl; [lia|].
  destruct (rstrip s); simpl in *; [destruct (isspace c); simpl; lia | lia].
Qed.

Lemma strip_len (s : string) : str_len (strip s) <= str_len s.
Proof.
  unfold strip, str_len.
  pose proof (rstrip_length (lstrip s)). pose proof (lstrip_length s). lia.
Qed.

Lemma rstrip_id (s : string) : last_is_space s = false -> rstrip s = s.
Proof.
  induction s as [|c s IH]; intros H; [reflexivity|].
  destruct s as [|c' s'].
  - simpl in *. now rewrite H.
  - change (last_is_space (String c (String c' s')))
      with (last_is_space (String c' s')) in H.
    specialize (IH H).
    change (rstrip (String c (String c' s')))
      with (match rstrip (String c' s') with
            | EmptyString =>
                if isspace c then EmptyString else String c EmptyString
            | r => String c r
            end).
    now rewrite IH.
Qed.

Lemma strip_id (s : string) :
  first_is_space s = false -> last_is_space s = false -> strip s = s.
Proof.
  intros Hf Hl. unfold strip.
  assert (Hs : lstrip s = s).
  { destruct s as [|c s]; [reflexivity|]. simpl in *. now rewrite Hf. }
  rewrite Hs. now apply rstrip_id.
Qed.

(** ** QACandidate.add_cls *)

(** C3. With a label "yes" or "no" and an answer other than "no_answer",
    [add_cls] stores the current answer in [answer_support], the current
    offsets in the support offsets, and the label in both [answer] and
    [answer_type], every other attribute staying as it was; with any other
    label, and with the answer "no_answer" whatever the label, the candidate
    is returned unchanged. *)
Theorem add_cls_override (c : QACandidate) (label : string) :
  (label = "yes" \/ label = "no" ->
   answer c <> Some "no_answer" ->
   add_cls c label =
   {| answer_type := label;
      score := score c;
      probability := probability c;
      answer := Some label;
      offset_answer_start := offset_answer_start c;
      offset_answer_end := offset_answer_end c;
      answer_support := answer c;
      offset_answer_support_start := Some (offset_answer_start c);
      offset_answer_support_end := Some (offset_answer_end c);
      context := context c;
      offset_context_start := offset_context_start c;
      offset_context_end := offset_context_end c;
      offset_unit := offset_unit c;
      aggregation_level := aggregation_level c;
      n_passages_in_doc := n_passages_in_doc c;
      passage_id := passage_id c |})
  /\ (label <> "yes" -> label <> "no" -> add_cls c label = c)
  /\ (answer c = Some "no_answer" -> add_cls c label = c).
Proof.
  unfold add_cls. repeat split.
  - intros Hl Ha.
    apply in_yes_no_true in Hl. apply differs_from_no_answer_true in Ha.
    rewrite Hl, Ha. reflexivity.
  - intros H1 H2.
    assert (Hl : in_yes_no label = false) by (apply in_yes_no_false; auto).
    rewrite Hl. reflexivity.
  - intros Ha. apply differs_from_no_answer_false in Ha.
    rewrite Ha, andb_false_r. reflexivity.
Qed.

(** C10. The guard of [add_cls] reads the label and the answer text only:
    for a label "yes" or "no" the override takes place exactly when the
    answer text is not the string "no_answer", whatever [answer_type] and
    the offsets are.  Hence a candidate whose answer is still [None] is
    overridden, also when its [answer_type] is "no_answer" and its offsets
    are (-1, -1). *)
Theorem add_cls_guard_reads_answer_only :
  (forall (c : QACandidate) (label : string),
     label = "yes" \/ label = "no" ->
     (answer c <> Some "no_answer" <->
      answer (add_cls c label) = Some label
      /\ answer_type (add_cls c label) = label
      /\ answer_support (add_cls c label) = answer c
      /\ offset_answer_support_start (add_cls c label)
         = Some (offset_answer_start c)
      /\ offset_answer_support_end (add_cls c label)
         = Some (offset_answer_end c)))
  /\ (forall (c : QACandidate) (label : string),
        label = "yes" \/ label = "no" ->
        answer c = None ->
        answer_type c = "no_answer" ->
        offset_answer_start c = -1 ->
        offset_answer_end c = -1 ->
        add_cls c label =
        {| answer_type := label;
           score := score c;
           probability := probability c;
           answer := Some label;
           offset_answer_start := -1;
           offset_answer_end := -1;
           answer_support := None;
           offset_answer_support_start := Some (-1);
           offset_answer_support_end := Some (-1);
           context := context c;
           offset_context_start := offset_context_start c;
           offset_context_end := offset_context_end c;
           offset_unit := offset_unit c;
           aggregation_level := aggregation_level c;
           n_passages_in_doc := n_passages_in_doc c;
           passage_id := passage_id c |}).
Proof.
  split.
  - intros c label Hl. pose proof Hl as Hyn.
    apply in_yes_no_true in Hyn. unfold add_cls. rewrite Hyn. simpl.
    destruct (differs_from_no_answer (answer c)) eqn:G.
    + apply differs_from_no_answer_true in G. simpl. tauto.
    + apply differs_from_no_answer_false in G. split; [congruence|].
      intros [Ha _]. rewrite G in Ha.
      destruct Hl; subst label; discriminate.
  - intros c label Hl Ha Ht Hs He. unfold add_cls.
    apply in_yes_no_true in Hl. rewrite Hl, Ha. simpl.
    cbv [set_offset_answer_support_end set_offset_answer_support_start
         set_answer_type set_answer set_answer_support]. simpl.
    rewrite Hs, He. reflexivity.
Qed.

(** ** QACandidate.to_doc_level *)

(** C8. [to_doc_level] stores the two given integers, whatever they are, in
    [offset_answer_start] and [offset_answer_end], sets [aggregation_level]
    to "document", and keeps every other attribute. *)
Theorem to_doc_level_frame (c : QACandidate) (start end_ : Z) :
  to_doc_level c start end_ =
  {| answer_type := answer_type c;
     score := score c;
     probability := probability c;
     answer := answer c;
     offset_answer_start := start;
     offset_answer_end := end_;
     answer_support := answer_support c;
     offset_answer_support_start := offset_answer_support_start c;
     offset_answer_support_end := offset_answer_support_end c;
     context := context c;
     offset_context_start := offset_context_start c;
     offset_context_end := offset_context_end c;
     offset_unit := offset_unit c;
     aggregation_level := "document";
     n_passages_in_doc := n_passages_in_doc c;
     passage_id := passage_id c |}.
Proof.
  reflexivity.
Qed.

(** ** QACandidate.span_to_string *)

Lemma span_to_string_token (c : QACandidate) (toks : list Z) (text : string) :
  offset_unit c = "token" ->
  ~ (offset_answer_start c = -1 /\ offset_answer_end c = -1) ->
  span_to_string c toks text =
  (start_ch <- getitem toks (offset_answer_start c) ;;
   end_ch <- (if Z.min (offset_answer_end c + 1) (list_len toks)
                 =? list_len toks
              then Ok (str_len text)
              else getitem toks
                     (Z.min (offset_answer_end c + 1) (list_len toks))) ;;
   Ok (strip (str_slice text start_ch end_ch), start_ch, end_ch)).
Proof.
  intros Hu Hs. unfold span_to_string.
  rewrite Hu, String.eqb_refl. simpl.
  destruct (Z.eqb_spec (offset_answer_start c) (-1));
    destruct (Z.eqb_spec (offset_answer_end c) (-1)); simpl;
    try reflexivity.
  tauto.
Qed.

Lemma span_to_string_in_range
    (c : QACandidate) (toks : list Z) (text : string) :
  offset_unit c = "token" ->
  ~ (offset_answer_start c = -1 /\ offset_answer_end c = -1) ->
  0 <= offset_answer_start c < list_len toks ->
  0 <= offset_answer_end c + 1 ->
  let sc := nth (Z.to_nat (offset_answer_start c)) toks 0 in
  let ec := if list_len toks <=? offset_answer_end c + 1 then str_len text
            else nth (Z.to_nat (offset_answer_end c + 1)) toks 0 in
  span_to_string c toks text = Ok (strip (str_slice text sc ec), sc, ec).
Proof.
  intros Hu Hs Hr He sc ec.
  rewrite (span_to_string_token c toks text Hu Hs).
  rewrite (@getitem_nonneg Z toks (offset_answer_start c) 0 Hr). simpl.
  fold sc. subst ec.
  destruct (Z.leb_spec (list_len toks) (offset_answer_end c + 1)).
  - rewrite Z.min_r by lia. rewrite Z.eqb_refl. reflexivity.
  - rewrite Z.min_l by lia.
    destruct (Z.eqb_spec (offset_answer_end c + 1) (list_len toks)); [lia|].
    rewrite (@getitem_nonneg Z toks (offset_answer_end c + 1) 0) by lia.
    reflexivity.
Qed.

(** C4. [span_to_string] raises [AssertionError] when [offset_unit] is not
    "token"; when it is "token" and both offsets are -1, the result is
    [("", 0, 0)] for every token offset table and every text. *)
Theorem span_to_string_no_answer
    (c : QACandidate) (toks : list Z) (text : string) :
  (offset_unit c <> "token" ->
   span_to_string c toks text = Raise AssertionError)
  /\ (offset_unit c = "token" ->
      offset_answer_start c = -1 ->
      offset_answer_end c = -1 ->
      span_to_string c toks text = Ok ("", 0, 0)).
Proof.
  unfold span_to_string. split.
  - intros Hu. apply String.eqb_neq in Hu. rewrite Hu. reflexivity.
  - intros Hu Hs He. rewrite Hu, Hs, He. reflexivity.
Qed.

(** C5. For a candidate in token units whose offsets are not (-1, -1), with
    [b] the end offset advanced by one and clamped to the number of tokens:
    [span_to_string] returns [(t, sc, ec)] exactly when [sc] is
    [token_offsets[start]], [ec] is the length of the text if [b] is the
    number of tokens and [token_offsets[b]] otherwise, and [t] is the
    stripped slice of the text from [sc] to [ec]; any failure is an
    [IndexError] of one of these look-ups, as for a start index outside
    [-n_tokens, n_tokens).  With the start index inside the
    table and the advanced end not negative both look-ups succeed.  For
    offsets (5, 5), the table [0,4,8,12,16,20] and a text of 22 characters
    the result is the text from character 20 to 22. *)
Theorem span_to_string_resolves
    (c : QACandidate) (toks : list Z) (text : string) :
  offset_unit c = "token" ->
  ~ (offset_answer_start c = -1 /\ offset_answer_end c = -1) ->
  let n := list_len toks in
  let b := Z.min (offset_answer_end c + 1) n in
  (forall (t : string) (sc ec : Z),
     span_to_string c toks text = Ok (t, sc, ec) <->
     getitem toks (offset_answer_start c) = Ok sc
     /\ (b = n -> ec = str_len text)
     /\ (b <> n -> getitem toks b = Ok ec)
     /\ t = strip (str_slice text sc ec))
  /\ (forall e : exn, span_to_string c toks text = Raise e -> e = IndexError)
  /\ (offset_answer_start c < - n \/ n <= offset_answer_start c ->
      span_to_string c toks text = Raise IndexError)
  /\ (0 <= offset_answer_start c < n ->
      0 <= offset_answer_end c + 1 ->
      let sc := nth (Z.to_nat (offset_answer_start c)) toks 0 in
      let ec := if n <=? offset_answer_end c + 1 then str_len text
                else nth (Z.to_nat (offset_answer_end c + 1)) toks 0 in
      span_to_string c toks text
      = Ok (strip (str_slice text sc ec), sc, ec))
  /\ (offset_answer_start c = 5 ->
      offset_answer_end c = 5 ->
      toks = [0; 4; 8; 12; 16; 20] ->
      str_len text = 22 ->
      span_to_string c toks text = Ok (strip (str_slice text 20 22), 20, 22)).
Proof.
  intros Hu Hs n b.
  pose proof (span_to_string_in_range c toks text Hu Hs) as Hin.
  rewrite (span_to_string_token c toks text Hu Hs).
  fold n. fold b. split; [|split; [|split; [|split]]].
  - intros t sc ec. split.
    + intros H.
      destruct (getitem toks (offset_answer_start c)) as [x|];
        [|discriminate].
      simpl in H. destruct (Z.eqb_spec b n) as [E|E].
      * simpl in H. inversion H; subst. tauto.
      * destruct (getitem toks b); simpl in H; [|discriminate].
        inversion H; subst. tauto.
    + intros (H1 & H2 & H3 & H4). rewrite H1. simpl.
      destruct (Z.eqb_spec b n) as [E|E].
      * simpl. rewrite (H2 E) in H4. rewrite (H2 E). now subst t.
      * rewrite (H3 E). simpl. now subst t.
  - intros e H.
    destruct (getitem toks (offset_answer_start c)) as [x|] eqn:G.
    + simpl in H. destruct (Z.eqb_spec b n); simpl in H; [discriminate|].
      destruct (getitem toks b) eqn:G'; simpl in H; [discriminate|].
      apply getitem_raises in G'. congruence.
    + simpl in H. apply getitem_raises in G. congruence.
  - intros Hout.
    rewrite (getitem_out_of_range Z toks (offset_answer_start c) Hout).
    reflexivity.
  - intros Hr He. subst b n.
    rewrite <- (span_to_string_token c toks text Hu Hs).
    exact (Hin Hr He).
  - intros H5 H5' Ht Hl. subst b n. rewrite H5, H5', Ht, Hl. reflexivity.
Qed.

(** C2 (as the code has it). For a candidate in token units with
    [0 <= start <= end < n_tokens], [span_to_string] returns character
    bounds [sc = token_offsets[start]] and [ec], where [ec] is
    [token_offsets[end + 1]] (so [ec - sc] is the difference of the two
    table entries), or the length of the text when [end + 1] is the number
    of tokens.  The string returned is the slice from [sc] to [ec] with the
    white space at both ends removed: when [0 <= sc <= ec <= len(text)] its
    length is at most [ec - sc], and is [ec - sc] when the slice neither
    starts nor ends with white space. *)
Theorem span_to_string_char_span
    (c : QACandidate) (toks : list Z) (text : string) :
  offset_unit c = "token" ->
  0 <= offset_answer_start c ->
  offset_answer_start c <= offset_answer_end c ->
  offset_answer_end c < list_len toks ->
  let n := list_len toks in
  let sc := nth (Z.to_nat (offset_answer_start c)) toks 0 in
  let ec := if offset_answer_end c + 1 =? n then str_len text
            else nth (Z.to_nat (offset_answer_end c + 1)) toks 0 in
  let slice := str_slice text sc ec in
  span_to_string c toks text = Ok (strip slice, sc, ec)
  /\ (offset_answer_end c + 1 < n ->
      ec - sc = nth (Z.to_nat (offset_answer_end c + 1)) toks 0
                - nth (Z.to_nat (offset_answer_start c)) toks 0)
  /\ (offset_answer_end c + 1 = n -> ec = str_len text)
  /\ (0 <= sc -> sc <= ec -> ec <= str_len text ->
      str_len slice = ec - sc
      /\ str_len (strip slice) <= ec - sc
      /\ (first_is_space slice = false -> last_is_space slice = false ->
          str_len (strip slice) = ec - sc)).
Proof.
  intros Hu H0 Hle Hn n sc ec slice.
  assert (Hs : ~ (offset_answer_start c = -1 /\ offset_answer_end c = -1))
    by lia.
  pose proof (span_to_string_in_range c toks text Hu Hs) as Hin.
  fold n in Hin. split; [|split; [|split]].
  - rewrite Hin by (fold n in Hn; lia). subst slice ec sc.
    destruct (Z.leb_spec n (offset_answer_end c + 1));
      destruct (Z.eqb_spec (offset_answer_end c + 1) n);
      try reflexivity; fold n in Hn; lia.
  - intros Hlt. subst ec sc.
    destruct (Z.eqb_spec (offset_answer_end c + 1) n); [lia|reflexivity].
  - intros Heq. subst ec. rewrite Heq, Z.eqb_refl. reflexivity.
  - intros Hsc Hse Hec.
    assert (Hlen : str_len slice = ec - sc)
      by (subst slice; apply str_slice_len; assumption).
    split; [exact Hlen|]. split.
    + rewrite <- Hlen. apply strip_len.
    + intros Hf Hl. rewrite (strip_id slice Hf Hl). exact Hlen.
Qed.

(** ** QACandidate.add_answer *)

(** C7 (as the code has it). [add_answer] always returns: it writes the
    attribute [answer] only, "no_answer" for the empty string and the given
    string otherwise, so that [answer_type], the offsets and every other
    attribute stay as they were.  For the empty string one error is logged
    unless both offsets are -1; for a non-empty string one error is logged
    exactly when one of the offsets is -1. *)
Theorem add_answer_sets_answer_text (c : QACandidate) (s : string) :
  fst (add_answer c s) =
  {| answer_type := answer_type c;
     score := score c;
     probability := probability c;
     answer := Some (if (s =? "")%string then "no_answer" else s);
     offset_answer_start := offset_answer_start c;
     offset_answer_end := offset_answer_end c;
     answer_support := answer_support c;
     offset_answer_support_start := offset_answer_support_start c;
     offset_answer_support_end := offset_answer_support_end c;
     context := context c;
     offset_context_start := offset_context_start c;
     offset_context_end := offset_context_end c;
     offset_unit := offset_unit c;
     aggregation_level := aggregation_level c;
     n_passages_in_doc := n_passages_in_doc c;
     passage_id := passage_id c |}
  /\ (s = "" ->
      (offset_answer_start c = -1 /\ offset_answer_end c = -1 ->
       snd (add_answer c s) = [])
      /\ (~ (offset_answer_start c = -1 /\ offset_answer_end c = -1) ->
          snd (add_answer c s) =
          [EmptyAnswerWithOffsets (offset_answer_start c)
             (offset_answer_end c) (context c)]))
  /\ (s <> "" ->
      (offset_answer_start c = -1 \/ offset_answer_end c = -1 ->
       snd (add_answer c s) =
       [AnswerWithoutOffsets (offset_answer_start c) (offset_answer_end c)
          s (context c)])
      /\ (offset_answer_start c <> -1 -> offset_answer_end c <> -1 ->
          snd (add_answer c s) = [])).
Proof.
  unfold add_answer. split; [|split].
  - destruct (s =? "")%string; simpl.
    + destruct (negb _ || negb _); reflexivity.
    + destruct ((_ =? -1) || (_ =? -1)); reflexivity.
  - intros ->. simpl.
    destruct (Z.eqb_spec (offset_answer_start c) (-1));
      destruct (Z.eqb_spec (offset_answer_end c) (-1)); simpl;
      split; intros; try reflexivity; tauto.
  - intros Hne. apply String.eqb_neq in Hne. rewrite Hne. simpl.
    destruct (Z.eqb_spec (offset_answer_start c) (-1));
      destruct (Z.eqb_spec (offset_answer_end c) (-1)); simpl;
      split; intros; try reflexivity; tauto.
Qed.

(** ** QAPred.create_context *)

Lemma int_half_nonneg (x : Z) :
  0 <= x -> 0 <= 2 * int_half x <= x /\ x - 1 <= 2 * int_half x.
Proof.
  intros H. unfold int_half.
  pose proof (Z.quot_rem' x 2). pose proof (Z.rem_bound_pos x 2). lia.
Qed.

Lemma int_half_nonpos (x : Z) :
  x <= 0 -> x <= 2 * int_half x <= 0 /\ 2 * int_half x <= x + 1.
Proof.
  intros H. unfold int_half.
  pose proof (Z.quot_rem' x 2). pose proof (Z.rem_nonpos x 2).
  pose proof (Z.rem_bound_abs x 2). lia.
Qed.

Lemma int_half_even (x : Z) : Z.even x = true -> 2 * int_half x = x.
Proof.
  intros H. apply Z.even_spec in H. destruct H as [m ->].
  unfold int_half. rewrite (Z.mul_comm 2 m), Z.quot_mul by lia. lia.
Qed.

Lemma int_half_odd (x : Z) :
  Z.even x = false -> 0 <= x -> 2 * int_half x = x - 1.
Proof.
  intros H Hx. rewrite <- Z.negb_odd, negb_false_iff in H.
  apply Z.odd_spec in H. destruct H as [m ->].
  unfold int_half.
  pose proof (Z.quot_rem' (2 * m + 1) 2).
  pose proof (Z.rem_bound_pos (2 * m + 1) 2). lia.
Qed.

(** The bounds of the window, for an answer span that is not (0, 0). *)
Lemma create_context_bounds (self : QAPred) (s e : Z) (text : string) :
  ~ (s = 0 /\ e = 0) ->
  let len_text := str_len text in
  let midpoint := int_half (e - s) + s in
  let half_window := int_half (context_window_size self) in
  let lo := Z.max 0 (midpoint - half_window
                     - Z.max 0 (midpoint + half_window - len_text)) in
  let hi := Z.min len_text (midpoint + half_window
                            + Z.max 0 (- (midpoint - half_window))) in
  create_context self s e text = (str_slice text lo hi, lo, hi).
Proof.
  intros Hne. unfold create_context.
  destruct (Z.eqb_spec s 0); destruct (Z.eqb_spec e 0); simpl;
    try reflexivity.
  tauto.
Qed.

(** C1 (as the code has it). For an answer span with
    [0 < start < end < len(text)] in a text longer than the window size, the
    window returned has width [2 * int(window_size / 2)]: the window size
    itself when that is even, and one less when it is odd and positive; for
    a window size that is not negative the string returned has that many
    characters.  With window size 20, the span (10, 12) in a text of 5
    characters gives the whole text with bounds (0, 5), and the span
    (100, 102) in a text of 1000 characters gives the bounds (91, 111). *)
Theorem create_context_width :
  (forall (self : QAPred) (s e : Z) (text : string),
     float_exact (context_window_size self) ->
     float_exact (str_len text) ->
     0 < s -> s < e -> e < str_len text ->
     context_window_size self < str_len text ->
     let w := create_context self s e text in
     window_width w = 2 * int_half (context_window_size self)
     /\ (Z.even (context_window_size self) = true ->
         window_width w = context_window_size self)
     /\ (Z.even (context_window_size self) = false ->
         0 <= context_window_size self ->
         window_width w = context_window_size self - 1)
     /\ (0 <= context_window_size self ->
         str_len (fst (fst w)) = window_width w))
  /\ (forall (self : QAPred) (text : string),
        context_window_size self = 20 ->
        str_len text = 5 ->
        create_context self 10 12 text = (text, 0, 5))
  /\ (forall (self : QAPred) (text : string),
        context_window_size self = 20 ->
        str_len text = 1000 ->
        create_context self 100 102 text = (str_slice text 91 111, 91, 111)).
Proof.
  split; [|split].
  - intros self s e text _ _ Hs Hse He Hw w.
    assert (Hne : ~ (s = 0 /\ e = 0)) by lia.
    pose proof (create_context_bounds self s e text Hne) as Hb.
    cbv zeta in Hb. subst w. rewrite Hb. clear Hb.
    pose proof (int_half_nonneg (e - s)) as Hm.
    pose proof (int_half_nonneg (context_window_size self)) as Hp.
    pose proof (int_half_nonpos (context_window_size self)) as Hq.
    pose proof (str_len_nonneg text) as Hl.
    set (m := int_half (e - s)) in *.
    set (h := int_half (context_window_size self)) in *.
    set (L := str_len text) in *.
    assert (Hwidth :
      Z.min L (m + s + h + Z.max 0 (- (m + s - h)))
      - Z.max 0 (m + s - h - Z.max 0 (m + s + h - L)) = 2 * h) by lia.
    unfold window_width. simpl fst.
    split; [exact Hwidth|]. split; [|split].
    + intros Hev. rewrite Hwidth. subst h. now apply int_half_even.
    + intros Hod H0. rewrite Hwidth. subst h. now apply int_half_odd.
    + intros H0. apply str_slice_len; lia.
  - intros self text Hw Hl.
    rewrite create_context_bounds by lia. cbv zeta. rewrite Hw, Hl.
    change (int_half (12 - 10)) with 1. change (int_half 20) with 10.
    simpl. f_equal. f_equal. apply str_slice_all. lia.
  - intros self text Hw Hl.
    rewrite create_context_bounds by lia. cbv zeta. rewrite Hw, Hl.
    reflexivity.
Qed.

(** ** QAPred.answers_to_json and QAPred.to_json *)

(** The dict built for a candidate, from the character span of its answer. *)
Lemma answer_record_ok (self : QAPred) (id : string) (squad : bool)
    (c : QACandidate) (t : string) (s e : Z) :
  span_to_string c (token_offsets self) (pred_context self) = Ok (t, s, e) ->
  let w := create_context self s e (pred_context self) in
  answer_record self id squad c =
  Ok (JDict [("score", JNum (score c));
             ("probability", JNull);
             ("answer",
              if is_squad_no_answer squad (answer c) then JStr ""
              else json_of_opt_str (answer c));
             ("offset_answer_start", JInt s);
             ("offset_answer_end", JInt e);
             ("context", JStr (fst (fst w)));
             ("offset_context_start", JInt (snd (fst w)));
             ("offset_context_end", JInt (snd w));
             ("document_id", JStr id)]).
Proof.
  intros H w. unfold answer_record. rewrite H. simpl. fold w.
  destruct w as [[cs a] b]. simpl.
  destruct (is_squad_no_answer squad (answer c)); reflexivity.
Qed.

Lemma answer_record_raise (self : QAPred) (id : string) (squad : bool)
    (c : QACandidate) (x : exn) :
  span_to_string c (token_offsets self) (pred_context self) = Raise x ->
  answer_record self id squad c = Raise x.
Proof.
  intros H. unfold answer_record. rewrite H. reflexivity.
Qed.

Lemma answer_record_inv (self : QAPred) (id : string) (squad : bool)
    (c : QACandidate) (r : json) :
  answer_record self id squad c = Ok r ->
  exists t s e,
    span_to_string c (token_offsets self) (pred_context self) = Ok (t, s, e).
Proof.
  unfold answer_record.
  destruct (span_to_string c (token_offsets self) (pred_context self))
    as [[[t s] e]|x]; [|discriminate].
  intros _. now exists t, s, e.
Qed.

(** When every pass succeeds the loop appends one dict per candidate, in
    the order of the candidates. *)
Lemma answers_loop_ok (self : QAPred) (id : string) (squad : bool)
    (todo : list QACandidate) :
  Forall (fun c => exists r, answer_record self id squad c = Ok r) todo ->
  forall ret : list json,
  exists recs,
    answers_loop self id squad todo ret = Ok (ret ++ recs)%list
    /\ Forall2 (fun c r => answer_record self id squad c = Ok r) todo recs.
Proof.
  induction 1 as [|c todo [r Hr] _ IH]; intros ret.
  - exists []. rewrite app_nil_r. split; [reflexivity|constructor].
  - destruct (IH (ret ++ [r])%list) as (recs & Hloop & Hall).
    exists (r :: recs). simpl. rewrite Hr. simpl. rewrite Hloop.
    rewrite <- app_assoc. split; [reflexivity|]. now constructor.
Qed.

Lemma answers_loop_inv (self : QAPred) (id : string) (squad : bool)
    (todo : list QACandidate) :
  forall ret out : list json,
  answers_loop self id squad todo ret = Ok out ->
  exists recs,
    out = (ret ++ recs)%list
    /\ Forall2 (fun c r => answer_record self id squad c = Ok r) todo recs.
Proof.
  induction todo as [|c todo IH]; intros ret out H; simpl in H.
  - exists []. rewrite app_nil_r. split; [congruence|constructor].
  - destruct (answer_record self id squad c) as [r|x] eqn:Hr;
      [|discriminate].
    simpl in H. destruct (IH _ _ H) as (recs & -> & Hall).
    exists (r :: recs). rewrite <- app_assoc. split; [reflexivity|].
    now constructor.
Qed.

(** The first pass that raises ends the loop with its exception. *)
Lemma answers_loop_raise (self : QAPred) (id : string) (squad : bool)
    (todo : list QACandidate) (c : QACandidate) (x : exn) :
  In c todo ->
  answer_record self id squad c = Raise x ->
  forall ret : list json,
  exists x', answers_loop self id squad todo ret = Raise x'.
Proof.
  induction todo as [|c' todo IH]; intros Hin Hc ret; [contradiction|].
  simpl. destruct (answer_record self id squad c') as [r|x'] eqn:Hr.
  - simpl. destruct Hin as [->|Hin]; [congruence|]. now apply IH.
  - now exists x'.
Qed.

Lemma answer_record_set_probability (self : QAPred) (id : string)
    (squad : bool) (l : list QACandidate) (p : option Num)
    (c : QACandidate) :
  answer_record (with_prediction l self) id squad (set_probability p c)
  = answer_record self id squad c.
Proof.
  reflexivity.
Qed.

Lemma answers_loop_set_probability (self : QAPred) (id : string)
    (squad : bool) (l : list QACandidate) (f : QACandidate -> option Num)
    (todo : list QACandidate) :
  forall ret : list json,
  answers_loop (with_prediction l self) id squad
    (map (fun c => set_probability (f c) c) todo) ret
  = answers_loop self id squad todo ret.
Proof.
  induction todo as [|c todo IH]; intros ret; simpl; [reflexivity|].
  rewrite answer_record_set_probability.
  destruct (answer_record self id squad c); simpl; [apply IH|reflexivity].
Qed.

(** A property of every dict a pass can build holds of every dict
    returned. *)
Lemma answers_to_json_each (self : QAPred) (id : string) (squad : bool)
    (P : json -> Prop) :
  (forall c r, answer_record self id squad c = Ok r -> P r) ->
  forall out : list json,
  answers_to_json self id squad = Ok out -> Forall P out.
Proof.
  intros HP out H. unfold answers_to_json in H.
  destruct (answers_loop_inv self id squad (prediction self) [] out H)
    as (recs & -> & HF).
  simpl. clear H.
  induction HF as [|c r todo recs Hr _ IH]; constructor; eauto.
Qed.

Lemma answer_record_shape (self : QAPred) (id : string) (squad : bool)
    (c : QACandidate) (r : json) :
  answer_record self id squad c = Ok r ->
  exists a s e cs cstart cend,
    r = JDict [("score", JNum (score c));
               ("probability", JNull);
               ("answer", a);
               ("offset_answer_start", JInt s);
               ("offset_answer_end", JInt e);
               ("context", JStr cs);
               ("offset_context_start", JInt cstart);
               ("offset_context_end", JInt cend);
               ("document_id", JStr id)].
Proof.
  intros Hr.
  destruct (answer_record_inv self id squad c r Hr) as (t & s & e & Hc).
  pose proof (answer_record_ok self id squad c t s e Hc) as Hok.
  cbv zeta in Hok. rewrite Hok in Hr. inversion Hr. now repeat eexists.
Qed.

(** C6 (as the code has it). The window size and the length of every
    resolved span are in the range where [int(x / 2)] is exact, so that
    [create_context] returns.  When [span_to_string] succeeds on every
    candidate, [answers_to_json] returns one dict per candidate, in the
    order of the candidates, with the keys score, probability, answer,
    offset_answer_start, offset_answer_end, context, offset_context_start,
    offset_context_end and document_id in that order; with [squad] set an
    answer "no_answer" is written as the empty string.  When
    [span_to_string] raises on some candidate, [answers_to_json] raises and
    returns no record.  [to_json] raises when [answers_to_json] does, and
    else puts the records, with the question, the id, the ground truth and
    the no-answer gap, under the keys task ("qa") and predictions. *)
Theorem answers_to_json_records (self : QAPred) (id_ : string) (squad : bool) :
  float_exact (context_window_size self) ->
  Forall (exact_span self) (prediction self) ->
  (Forall (fun c => exists r,
             span_to_string c (token_offsets self) (pred_context self) = Ok r)
     (prediction self) ->
   exists out,
     answers_to_json self id_ squad = Ok out
     /\ List.length out = List.length (prediction self)
     /\ Forall2
          (fun c rec =>
             exists t s e,
               span_to_string c (token_offsets self) (pred_context self)
               = Ok (t, s, e)
               /\ let w := create_context self s e (pred_context self) in
                  rec =
                  JDict [("score", JNum (score c));
                         ("probability", JNull);
                         ("answer",
                          if is_squad_no_answer squad (answer c) then JStr ""
                          else json_of_opt_str (answer c));
                         ("offset_answer_start", JInt s);
                         ("offset_answer_end", JInt e);
                         ("context", JStr (fst (fst w)));
                         ("offset_context_start", JInt (snd (fst w)));
                         ("offset_context_end", JInt (snd w));
                         ("document_id", JStr id_)])
          (prediction self) out)
  /\ (forall out : list json,
        answers_to_json self id_ squad = Ok out ->
        Forall (fun rec => exists items,
                  rec = JDict items
                  /\ dict_keys items =
                     ["score"; "probability"; "answer";
                      "offset_answer_start"; "offset_answer_end"; "context";
                      "offset_context_start"; "offset_context_end";
                      "document_id"]) out)
  /\ (forall (c : QACandidate) (x : exn),
        In c (prediction self) ->
        span_to_string c (token_offsets self) (pred_context self) = Raise x ->
        exists x', answers_to_json self id_ squad = Raise x')
  /\ to_json self squad =
     match answers_to_json self (id self) squad with
     | Ok answers =>
         Ok (JDict
               [("task", JStr "qa");
                ("predictions",
                 JList
                   [JDict [("question", JStr (question self));
                           ("question_id", JStr (id self));
                           ("ground_truth",
                            json_of_opt_str (ground_truth_answer self));
                           ("answers", JList answers);
                           ("no_ans_gap", JNum (no_answer_gap self))]])])
     | Raise x => Raise x
     end.
Proof.
  intros _ _. split; [|split; [|split]].
  - intros Hall. unfold answers_to_json.
    assert (Hrec : Forall (fun c => exists r,
                             answer_record self id_ squad c = Ok r)
                     (prediction self)).
    { eapply Forall_impl; [|exact Hall]. intros c [[[t s] e] Hc].
      eexists. apply (answer_record_ok self id_ squad c t s e Hc). }
    destruct (answers_loop_ok self id_ squad (prediction self) Hrec [])
      as (out & Hloop & HF).
    exists out. split; [exact Hloop|]. split.
    + symmetry. exact (Forall2_length HF).
    + eapply Forall2_impl; [|exact HF]. intros c r Hr. simpl in Hr.
      destruct (answer_record_inv self id_ squad c r Hr) as (t & s & e & Hc).
      exists t, s, e. split; [exact Hc|].
      pose proof (answer_record_ok self id_ squad c t s e Hc) as Hok.
      cbv zeta in *. congruence.
  - apply answers_to_json_each. intros c r Hr.
    destruct (answer_record_shape self id_ squad c r Hr)
      as (a & s & e & cs & cstart & cend & ->).
    eexists. split; reflexivity.
  - intros c x Hin Hc. unfold answers_to_json.
    apply (answers_loop_raise self id_ squad (prediction self) c x Hin
             (answer_record_raise self id_ squad c x Hc)).
  - unfold to_json.
    destruct (answers_to_json self (id self) squad); reflexivity.
Qed.

(** C9. The dicts returned by [answers_to_json] do not depend on the
    probabilities of the candidates: replacing the probability of every
    candidate by any other value leaves the result unchanged, and whenever
    records are returned, there is one per candidate and each has the value
    [None] under the key probability. *)
Theorem answers_to_json_probability_null
    (self : QAPred) (id_ : string) (squad : bool) :
  (forall f : QACandidate -> option Num,
     answers_to_json
       (with_prediction
          (map (fun c => set_probability (f c) c) (prediction self)) self)
       id_ squad
     = answers_to_json self id_ squad)
  /\ (forall out : list json,
        answers_to_json self id_ squad = Ok out ->
        List.length out = List.length (prediction self)
        /\ Forall (fun rec => exists items,
                     rec = JDict items
                     /\ dict_get items "probability" = Some JNull) out).
Proof.
  split.
  - intros f. unfold answers_to_json.
    change (prediction (with_prediction
              (map (fun c => set_probability (f c) c) (prediction self))
              self))
      with (map (fun c => set_probability (f c) c) (prediction self)).
    apply answers_loop_set_probability.
  - intros out H. split.
    + unfold answers_to_json in H.
      destruct (answers_loop_inv self id_ squad (prediction self) [] out H)
        as (recs & -> & HF).
      symmetry. exact (Forall2_length HF).
    + revert out H. apply answers_to_json_each. intros c r Hr.
      destruct (answer_record_shape self id_ squad c r Hr)
        as (a & s & e & cs & cstart & cend & ->).
      eexists. split; reflexivity.
Qed.

(** * Further properties *)

(** ** The methods of QACandidate in sequence *)

Lemma add_cls_fired (c : QACandidate) (label : string) :
  in_yes_no label = true ->
  differs_from_no_answer (answer c) = true ->
  add_cls c label =
  mkQACandidate label (score c) (probability c) (Some label)
    (offset_answer_start c) (offset_answer_end c) (answer c)
    (Some (offset_answer_start c)) (Some (offset_answer_end c))
    (context c) (offset_context_start c) (offset_context_end c)
    (offset_unit c) (aggregation_level c) (n_passages_in_doc c)
    (passage_id c).
Proof.
  intros Hl Ha. unfold add_cls. rewrite Hl, Ha. reflexivity.
Qed.

Lemma yes_no_differs (label : string) :
  in_yes_no label = true -> differs_from_no_answer (Some label) = true.
Proof.
  intros H. apply in_yes_no_true in H. apply differs_from_no_answer_true.
  destruct H; subst; discriminate.
Qed.

(** A second override by the classification head keeps the first label,
    not the answer of the QA head, as the support: after [add_cls] with
    two labels out of "yes" and "no" the support text is the first label,
    while the support offsets are still the offsets of the answer. *)
Theorem add_cls_twice (c : QACandidate) (l1 l2 : string) :
  l1 = "yes" \/ l1 = "no" ->
  l2 = "yes" \/ l2 = "no" ->
  answer c <> Some "no_answer" ->
  add_cls (add_cls c l1) l2 =
  {| answer_type := l2;
     score := score c;
     probability := probability c;
     answer := Some l2;
     offset_answer_start := offset_answer_start c;
     offset_answer_end := offset_answer_end c;
     answer_support := Some l1;
     offset_answer_support_start := Some (offset_answer_start c);
     offset_answer_support_end := Some (offset_answer_end c);
     context := context c;
     offset_context_start := offset_context_start c;
     offset_context_end := offset_context_end c;
     offset_unit := offset_unit c;
     aggregation_level := aggregation_level c;
     n_passages_in_doc := n_passages_in_doc c;
     passage_id := passage_id c |}.
Proof.
  intros H1 H2 Ha.
  apply in_yes_no_true in H1. apply in_yes_no_true in H2.
  apply differs_from_no_answer_true in Ha.
  rewrite (add_cls_fired c l1 H1 Ha).
  rewrite add_cls_fired; [reflexivity|exact H2|].
  simpl answer. now apply yes_no_differs.
Qed.

(** Once [add_answer] has recorded a no-answer, by the empty string or by
    the text "no_answer" itself, no label of the classification head
    changes the candidate; after any other text a label "yes" or "no"
    moves that text to the support. *)
Theorem add_cls_after_add_answer (c : QACandidate) (s label : string) :
  (s = "" \/ s = "no_answer" ->
   add_cls (fst (add_answer c s)) label = fst (add_answer c s))
  /\ (s <> "" -> s <> "no_answer" ->
      label = "yes" \/ label = "no" ->
      answer (add_cls (fst (add_answer c s)) label) = Some label
      /\ answer_type (add_cls (fst (add_answer c s)) label) = label
      /\ answer_support (add_cls (fst (add_answer c s)) label) = Some s
      /\ offset_answer_support_start (add_cls (fst (add_answer c s)) label)
         = Some (offset_answer_start c)
      /\ offset_answer_support_end (add_cls (fst (add_answer c s)) label)
         = Some (offset_answer_end c)).
Proof.
  assert (Hans : answer (fst (add_answer c s))
                 = Some (if (s =? "")%string then "no_answer" else s)).
  { unfold add_answer. destruct (s =? "")%string; simpl.
    - destruct (negb _ || negb _); reflexivity.
    - destruct ((_ =? -1) || (_ =? -1)); reflexivity. }
  assert (Hoff : offset_answer_start (fst (add_answer c s))
                 = offset_answer_start c
                 /\ offset_answer_end (fst (add_answer c s))
                    = offset_answer_end c).
  { unfold add_answer. destruct (s =? "")%string; simpl.
    - destruct (negb _ || negb _); split; reflexivity.
    - destruct ((_ =? -1) || (_ =? -1)); split; reflexivity. }
  split.
  - intros Hs. unfold add_cls. rewrite Hans.
    assert (E : (if (s =? "")%string then "no_answer" else s) = "no_answer")
      by (destruct Hs; subst; reflexivity).
    rewrite E. simpl. rewrite andb_false_r. reflexivity.
  - intros Hne Hno Hl. apply in_yes_no_true in Hl.
    apply String.eqb_neq in Hne.
    assert (Hd : differs_from_no_answer (answer (fst (add_answer c s)))
                 = true).
    { rewrite Hans, Hne. simpl. apply negb_true_iff.
      now apply String.eqb_neq. }
    rewrite (add_cls_fired _ label Hl Hd). simpl.
    rewrite Hans, Hne. destruct Hoff as [-> ->]. repeat split.
Qed.

(** [add_cls] and [to_doc_level] do not commute: the support offsets are
    the offsets held when [add_cls] runs.  After an override followed by
    the promotion they are the old offsets; with the promotion first they
    are the document offsets; the two orders give the same candidate
    exactly when the promotion does not change the offsets. *)
Theorem add_cls_to_doc_level_order
    (c : QACandidate) (label : string) (start end_ : Z) :
  label = "yes" \/ label = "no" ->
  answer c <> Some "no_answer" ->
  offset_answer_support_start (to_doc_level (add_cls c label) start end_)
  = Some (offset_answer_start c)
  /\ offset_answer_support_end (to_doc_level (add_cls c label) start end_)
     = Some (offset_answer_end c)
  /\ offset_answer_support_start (add_cls (to_doc_level c start end_) label)
     = Some start
  /\ offset_answer_support_end (add_cls (to_doc_level c start end_) label)
     = Some end_
  /\ (to_doc_level (add_cls c label) start end_
      = add_cls (to_doc_level c start end_) label
      <-> start = offset_answer_start c /\ end_ = offset_answer_end c).
Proof.
  intros Hl Ha. apply in_yes_no_true in Hl.
  apply differs_from_no_answer_true in Ha.
  rewrite (add_cls_fired c label Hl Ha).
  rewrite (add_cls_fired (to_doc_level c start end_) label Hl Ha).
  simpl. repeat split.
  - apply (f_equal offset_answer_support_start) in H. cbn in H. congruence.
  - apply (f_equal offset_answer_support_end) in H. cbn in H. congruence.
  - intros [-> ->]. reflexivity.
Qed.

(** Neither the classification override, nor setting the answer text,
    changes what [span_to_string] returns. *)
Theorem span_to_string_ignores_answer
    (c : QACandidate) (toks : list Z) (text : string) (s : string) :
  span_to_string (add_cls c s) toks text = span_to_string c toks text
  /\ span_to_string (fst (add_answer c s)) toks text
     = span_to_string c toks text.
Proof.
  split.
  - unfold add_cls.
    destruct (in_yes_no s && differs_from_no_answer (answer c));
      reflexivity.
  - unfold add_answer. destruct (s =? "")%string; simpl.
    + destruct (negb _ || negb _); reflexivity.
    + destruct ((_ =? -1) || (_ =? -1)); reflexivity.
Qed.

(** ** What [span_to_string] returns *)

Lemma lstrip_first (s : string) : first_is_space (lstrip s) = false.
Proof.
  induction s as [|c s IH]; simpl; [reflexivity|].
  destruct (isspace c) eqn:E; [exact IH|]. simpl. exact E.
Qed.

Lemma rstrip_first (s : string) :
  first_is_space s = false -> first_is_space (rstrip s) = false.
Proof.
  destruct s as [|c s]; simpl; [reflexivity|]. intros E.
  destruct (rstrip s); [rewrite E|]; simpl; exact E.
Qed.

Lemma rstrip_last (s : string) : last_is_space (rstrip s) = false.
Proof.
  induction s as [|c s IH]; simpl; [reflexivity|].
  destruct (rstrip s) as [|c' r] eqn:E.
  - destruct (isspace c) eqn:Ec; simpl; [reflexivity|exact Ec].
  - exact IH.
Qed.

Lemma strip_clean (s : string) :
  first_is_space (strip s) = false /\ last_is_space (strip s) = false.
Proof.
  unfold strip. split.
  - apply rstrip_first, lstrip_first.
  - apply rstrip_last.
Qed.

Lemma substring_empty (n m : nat) : substring n m "" = "".
Proof.
  destruct n, m; reflexivity.
Qed.

Lemma substring_length_le (s : string) (n m : nat) :
  (String.length (substring n m s) <= m)%nat.
Proof.
  revert n m. induction s as [|c s IH]; intros n m.
  - rewrite substring_empty. simpl. lia.
  - destruct n as [|n]; destruct m as [|m]; simpl; try lia.
    + specialize (IH 0%nat m). lia.
    + apply IH.
    + apply IH.
Qed.

Lemma substring_substring (s : string) (a m i n : nat) :
  (i + n <= m)%nat ->
  substring i n (substring a m s) = substring (a + i) n s.
Proof.
  revert a m i n. induction s as [|c s IH]; intros a m i n H.
  - now rewrite !substring_empty.
  - destruct a as [|a].
    + destruct m as [|m].
      * assert (i = 0%nat) by lia. assert (n = 0%nat) by lia. now subst.
      * simpl substring at 2. destruct i as [|i].
        -- destruct n as [|n]; [reflexivity|]. simpl. f_equal.
           apply (IH 0%nat m 0%nat n). lia.
        -- simpl. apply (IH 0%nat m i n). lia.
    + simpl. apply IH. exact H.
Qed.

Lemma lstrip_substring (s : string) :
  exists k : nat,
    (k <= String.length s)%nat
    /\ lstrip s = substring k (String.length s - k) s.
Proof.
  induction s as [|c s (k & Hk & IH)].
  - exists 0%nat. split; [simpl; lia|reflexivity].
  - simpl lstrip. destruct (isspace c).
    + exists (S k). split; [simpl; lia|]. simpl. exact IH.
    + exists 0%nat. split; [lia|].
      rewrite Nat.sub_0_r. symmetry. apply substring_all.
Qed.

Lemma rstrip_substring (s : string) :
  exists m : nat,
    (m <= String.length s)%nat /\ rstrip s = substring 0 m s.
Proof.
  induction s as [|c s (m & Hm & IH)].
  - exists 0%nat. split; [simpl; lia|reflexivity].
  - simpl rstrip. destruct (rstrip s) as [|c' r] eqn:E.
    + destruct (isspace c).
      * exists 0%nat. split; [lia|reflexivity].
      * exists 1%nat. split; [simpl; lia|]. simpl. f_equal.
        destruct s; reflexivity.
    + exists (S m). split; [simpl; lia|]. simpl. f_equal. exact IH.
Qed.

Lemma strip_substring (s : string) (a m : nat) :
  exists i n : nat, strip (substring a m s) = substring i n s.
Proof.
  unfold strip.
  destruct (lstrip_substring (substring a m s)) as (k & Hk & El).
  rewrite El.
  pose proof (substring_length_le s a m) as Hle.
  rewrite substring_substring in * by lia.
  destruct (rstrip_substring
              (substring (a + k) (String.length (substring a m s) - k) s))
    as (j & Hj & Er).
  rewrite Er.
  pose proof (substring_length_le s (a + k)
                (String.length (substring a m s) - k)) as Hle'.
  rewrite substring_substring by lia.
  now exists (a + k + 0)%nat, j.
Qed.

(** Whatever the offsets and the table, a string returned by
    [span_to_string] is a piece of the text, [clear_text[i:i+n]] for some
    [i] and [n], and it neither starts nor ends with white space. *)
Theorem span_to_string_clean_substring
    (c : QACandidate) (toks : list Z) (text : string)
    (t : string) (sc ec : Z) :
  span_to_string c toks text = Ok (t, sc, ec) ->
  (exists i n : nat, t = substring i n text)
  /\ first_is_space t = false
  /\ last_is_space t = false
  /\ strip t = t.
Proof.
  intros H.
  assert (Ht : t = "" \/ exists a b, t = strip (str_slice text a b)).
  { unfold span_to_string in H.
    destruct (negb (offset_unit c =? "token")%string); [discriminate|].
    destruct ((offset_answer_start c =? -1) && (offset_answer_end c =? -1)).
    - left. congruence.
    - right.
      destruct (getitem toks (offset_answer_start c)) as [x|];
        [|discriminate].
      simpl in H.
      destruct (if Z.min (offset_answer_end c + 1) (list_len toks)
                   =? list_len toks
                then Ok (str_len text)
                else getitem toks
                       (Z.min (offset_answer_end c + 1) (list_len toks)))
        as [y|]; [|discriminate].
      simpl in H. exists x, y. congruence. }
  assert (Hc : first_is_space t = false /\ last_is_space t = false).
  { destruct Ht as [->|(a & b & ->)]; [split; reflexivity|].
    apply strip_clean. }
  split; [|split; [tauto|split; [tauto|apply strip_id; tauto]]].
  destruct Ht as [->|(a & b & ->)].
  - exists 0%nat, 0%nat. destruct text; reflexivity.
  - unfold str_slice.
    destruct (slice_bound (str_len text) a <? slice_bound (str_len text) b).
    + apply strip_substring.
    + exists 0%nat, 0%nat. destruct text; reflexivity.
Qed.

Lemma nondecreasing_nth (l : list Z) :
  nondecreasing l = true ->
  forall i j : nat,
    (i <= j)%nat -> (j < List.length l)%nat -> nth i l 0 <= nth j l 0.
Proof.
  induction l as [|a t IH]; intros Hs i j Hij Hj; [simpl in Hj; lia|].
  destruct j as [|j].
  - assert (i = 0%nat) by lia. subst. lia.
  - assert (Ht : nondecreasing t = true).
    { simpl in Hs. destruct t; [reflexivity|].
      now apply andb_true_iff in Hs. }
    simpl in Hj. destruct i as [|i].
    + simpl nth at 1.
      apply Z.le_trans with (nth 0 t 0).
      * simpl in Hs. destruct t as [|b t']; [simpl in Hj; lia|].
        apply andb_true_iff in Hs. simpl. lia.
      * apply (IH Ht); lia.
    + simpl. apply (IH Ht); lia.
Qed.

Lemma offsets_in_text_nth (toks : list Z) (text : string) (i : nat) :
  offsets_in_text toks text = true ->
  (i < List.length toks)%nat ->
  0 <= nth i toks 0 <= str_len text.
Proof.
  intros H Hi. unfold offsets_in_text in H.
  rewrite forallb_forall in H.
  specialize (H (nth i toks 0) (nth_In toks 0 Hi)).
  apply andb_true_iff in H. lia.
Qed.

(** With a table whose offsets do not decrease and lie inside the text,
    a span [0 <= start <= end < n_tokens] in token units always resolves,
    to character bounds with [0 <= start_ch <= end_ch <= len(clear_text)],
    and the string returned has at most [end_ch - start_ch] characters. *)
Theorem span_to_string_bounds
    (c : QACandidate) (toks : list Z) (text : string) :
  offset_unit c = "token" ->
  nondecreasing toks = true ->
  offsets_in_text toks text = true ->
  0 <= offset_answer_start c ->
  offset_answer_start c <= offset_answer_end c ->
  offset_answer_end c < list_len toks ->
  exists (t : string) (sc ec : Z),
    span_to_string c toks text = Ok (t, sc, ec)
    /\ 0 <= sc /\ sc <= ec /\ ec <= str_len text
    /\ str_len t <= ec - sc.
Proof.
  intros Hu Hnd Hin H0 Hle Hn.
  assert (Hs : ~ (offset_answer_start c = -1 /\ offset_answer_end c = -1))
    by lia.
  pose proof (span_to_string_in_range c toks text Hu Hs) as Hr.
  cbv zeta in Hr. rewrite Hr by lia. clear Hr.
  unfold list_len in *.
  set (i := Z.to_nat (offset_answer_start c)).
  set (j := Z.to_nat (offset_answer_end c + 1)).
  assert (Hi : 0 <= nth i toks 0 <= str_len text)
    by (apply offsets_in_text_nth; [assumption|subst i; lia]).
  do 3 eexists. split; [reflexivity|].
  destruct (Z.leb_spec (Z.of_nat (List.length toks))
              (offset_answer_end c + 1)) as [Hc|Hc].
  - repeat split; try lia.
    rewrite <- (str_slice_len text (nth i toks 0) (str_len text)) by lia.
    apply strip_len.
  - assert (Hj : 0 <= nth j toks 0 <= str_len text)
      by (apply offsets_in_text_nth; [assumption|subst j; lia]).
    assert (Hij : nth i toks 0 <= nth j toks 0)
      by (apply nondecreasing_nth; [assumption|subst i j; lia..]).
    repeat split; try lia.
    rewrite <- (str_slice_len text (nth i toks 0) (nth j toks 0)) by lia.
    apply strip_len.
Qed.

Lemma getitem_ok_iff (l : list Z) (i : Z) :
  (exists x, getitem l i = Ok x) <-> - list_len l <= i < list_len l.
Proof.
  split.
  - intros [x H].
    destruct (Z_lt_le_dec i (- list_len l)) as [Hlo|Hlo].
    + rewrite getitem_out_of_range in H by lia. discriminate.
    + destruct (Z_lt_le_dec i (list_len l)) as [Hhi|Hhi]; [lia|].
      rewrite getitem_out_of_range in H by lia. discriminate.
  - intros H. destruct (Z_lt_le_dec i 0).
    + eexists. apply (getitem_negative Z l i 0). lia.
    + eexists. apply (getitem_nonneg Z l i 0). lia.
Qed.

(** For a candidate in token units whose offsets are not (-1, -1),
    [span_to_string] returns exactly when the start offset lies in
    [-n_tokens, n_tokens) and the end offset is at least [-n_tokens - 1];
    otherwise it raises [IndexError].  With an empty table it always
    raises, and a negative start offset in that range counts from the end
    of the table: [start_ch] is [token_offsets[n_tokens + start]]. *)
Theorem span_to_string_domain
    (c : QACandidate) (toks : list Z) (text : string) :
  offset_unit c = "token" ->
  ~ (offset_answer_start c = -1 /\ offset_answer_end c = -1) ->
  let n := list_len toks in
  ((exists r, span_to_string c toks text = Ok r) <->
   - n <= offset_answer_start c < n /\ - n <= offset_answer_end c + 1)
  /\ (~ (- n <= offset_answer_start c < n /\ - n <= offset_answer_end c + 1)
      -> span_to_string c toks text = Raise IndexError)
  /\ (toks = [] -> span_to_string c toks text = Raise IndexError)
  /\ (- n <= offset_answer_start c < 0 ->
      - n <= offset_answer_end c + 1 ->
      exists (t : string) (ec : Z),
        span_to_string c toks text
        = Ok (t, nth (Z.to_nat (n + offset_answer_start c)) toks 0, ec)).
Proof.
  intros Hu Hs n.
  pose proof (span_to_string_token c toks text Hu Hs) as E. fold n in E.
  assert (Hn : 0 <= n) by (subst n; unfold list_len; lia).
  assert (Hok : - n <= offset_answer_start c < n ->
                - n <= offset_answer_end c + 1 ->
                exists t ec,
                  span_to_string c toks text
                  = Ok (t, match getitem toks (offset_answer_start c) with
                           | Ok x => x
                           | Raise _ => 0
                           end, ec)).
  { intros H1 H2. rewrite E.
    destruct (proj2 (getitem_ok_iff toks (offset_answer_start c)) H1)
      as [x ->].
    simpl. destruct (Z.eqb_spec (Z.min (offset_answer_end c + 1) n) n).
    - simpl. eauto.
    - destruct (proj2 (getitem_ok_iff toks
                         (Z.min (offset_answer_end c + 1) n)))
        as [y ->]; [fold n; lia|].
      simpl. eauto. }
  assert (Hraise : ~ (- n <= offset_answer_start c < n
                      /\ - n <= offset_answer_end c + 1) ->
                   span_to_string c toks text = Raise IndexError).
  { intros Hno. rewrite E.
    destruct (getitem toks (offset_answer_start c)) as [x|e] eqn:G.
    - simpl.
      assert (H1 : - n <= offset_answer_start c < n)
        by (apply getitem_ok_iff; eauto).
      destruct (Z.eqb_spec (Z.min (offset_answer_end c + 1) n) n); [lia|].
      rewrite getitem_out_of_range; [reflexivity|fold n; lia].
    - simpl. apply getitem_raises in G. now subst. }
  split; [|split; [exact Hraise|split]].
  - split.
    + intros [r Hr].
      destruct (Z_lt_le_dec (offset_answer_start c) (- n));
        [rewrite Hraise in Hr by lia; discriminate|].
      destruct (Z_lt_le_dec (offset_answer_start c) n);
        [|rewrite Hraise in Hr by lia; discriminate].
      destruct (Z_lt_le_dec (offset_answer_end c + 1) (- n));
        [rewrite Hraise in Hr by lia; discriminate|].
      lia.
    + intros [H1 H2]. destruct (Hok H1 H2) as (t & ec & ->). eauto.
  - intros ->. apply Hraise. subst n. unfold list_len. simpl. lia.
  - intros H1 H2. destruct (Hok ltac:(lia) H2) as (t & ec & Ht).
    rewrite (getitem_negative Z toks (offset_answer_start c) 0) in Ht
      by (fold n; lia).
    fold n in Ht. rewrite Z.add_comm in Ht. eauto.
Qed.

(** ** The window of [create_context] *)

Lemma substring_zero (s : string) (n : nat) : substring n 0 s = "".
Proof.
  revert n. induction s as [|c s IH]; intros n.
  - apply substring_empty.
  - destruct n; simpl; [reflexivity|apply IH].
Qed.

Lemma str_slice_inside (text : string) (a b : Z) :
  0 <= a -> a <= b -> b <= str_len text ->
  str_slice text a b = substring (Z.to_nat a) (Z.to_nat (b - a)) text.
Proof.
  intros Ha Hab Hb. unfold str_slice, slice_bound.
  destruct (Z.ltb_spec a 0); [lia|].
  destruct (Z.ltb_spec b 0); [lia|].
  rewrite !Z.min_l by lia.
  destruct (Z.ltb_spec a b); [reflexivity|].
  replace (b - a) with 0 by lia. now rewrite substring_zero.
Qed.

Lemma str_slice_slice (text : string) (a b s e : Z) :
  0 <= a -> a <= s -> s <= e -> e <= b -> b <= str_len text ->
  str_slice (str_slice text a b) (s - a) (e - a) = str_slice text s e.
Proof.
  intros Ha Has Hse Heb Hb.
  pose proof (str_slice_len text a b Ha ltac:(lia) Hb) as Hl.
  rewrite (str_slice_inside (str_slice text a b)) by lia.
  rewrite !(str_slice_inside text) by lia.
  rewrite substring_substring by lia.
  f_equal; lia.
Qed.

(** For a window size that is not negative the bounds returned by
    [create_context] satisfy [0 <= start <= end <= len(clear_text)] and the
    string returned has [end - start] characters, for every answer span,
    inside the text or not.  Unless the span is (0, 0), the width is the
    smaller of the length of the text and [2 * int(window_size / 2)]. *)
Theorem create_context_clamped
    (self : QAPred) (s e : Z) (text : string) :
  float_exact (context_window_size self) ->
  float_exact (e - s) ->
  0 <= context_window_size self ->
  let w := create_context self s e text in
  0 <= snd (fst w)
  /\ snd (fst w) <= snd w
  /\ snd w <= str_len text
  /\ str_len (fst (fst w)) = snd w - snd (fst w)
  /\ (~ (s = 0 /\ e = 0) ->
      snd w - snd (fst w)
      = Z.min (str_len text) (2 * int_half (context_window_size self))).
Proof.
  intros _ _ Hw w.
  pose proof (str_len_nonneg text) as HL.
  pose proof (int_half_nonneg (context_window_size self) Hw) as Hh.
  destruct (Z.eq_dec s 0) as [Hs|Hs];
    [destruct (Z.eq_dec e 0) as [He|He]|].
  - subst w s e. unfold create_context. simpl.
    repeat split; lia.
  - assert (Hne : ~ (s = 0 /\ e = 0)) by lia.
    pose proof (create_context_bounds self s e text Hne) as Hb.
    cbv zeta in Hb. subst w. rewrite Hb. simpl fst. simpl snd.
    set (m := int_half (e - s) + s) in *.
    set (h := int_half (context_window_size self)) in *.
    set (L := str_len text) in *.
    repeat split; try lia. apply str_slice_len; lia.
  - assert (Hne : ~ (s = 0 /\ e = 0)) by lia.
    pose proof (create_context_bounds self s e text Hne) as Hb.
    cbv zeta in Hb. subst w. rewrite Hb. simpl fst. simpl snd.
    set (m := int_half (e - s) + s) in *.
    set (h := int_half (context_window_size self)) in *.
    set (L := str_len text) in *.
    repeat split; try lia. apply str_slice_len; lia.
Qed.

(** A text with at most [2 * int(window_size / 2)] characters is returned
    whole, with the bounds [(0, len(clear_text))], for every answer span
    other than (0, 0). *)
Theorem create_context_short_text
    (self : QAPred) (s e : Z) (text : string) :
  float_exact (context_window_size self) ->
  float_exact (e - s) ->
  ~ (s = 0 /\ e = 0) ->
  str_len text <= 2 * int_half (context_window_size self) ->
  create_context self s e text = (text, 0, str_len text).
Proof.
  intros _ _ Hne Hshort.
  pose proof (str_len_nonneg text) as HL.
  rewrite (create_context_bounds self s e text Hne). cbv zeta.
  set (m := int_half (e - s) + s) in *.
  set (h := int_half (context_window_size self)) in *.
  set (L := str_len text) in *.
  replace (Z.max 0 (m - h - Z.max 0 (m + h - L))) with 0 by lia.
  replace (Z.min L (m + h + Z.max 0 (- (m - h)))) with L by lia.
  subst L. rewrite str_slice_all by lia. reflexivity.
Qed.

(** An answer span inside the text, [0 <= start <= end <= len(clear_text)]
    and not (0, 0), whose length is at most [2 * int(window_size / 2)], lies
    inside the window returned, and the context string holds the answer at
    the shifted position: [context[start - c0 : end - c0]] is
    [clear_text[start:end]], with [c0] the start of the window. *)
Theorem create_context_contains_answer
    (self : QAPred) (s e : Z) (text : string) :
  float_exact (context_window_size self) ->
  float_exact (e - s) ->
  ~ (s = 0 /\ e = 0) ->
  0 <= s -> s <= e -> e <= str_len text ->
  e - s <= 2 * int_half (context_window_size self) ->
  let w := create_context self s e text in
  snd (fst w) <= s
  /\ e <= snd w
  /\ str_slice (fst (fst w)) (s - snd (fst w)) (e - snd (fst w))
     = str_slice text s e.
Proof.
  intros _ _ Hne Hs Hse He Hfit w.
  pose proof (int_half_nonneg (e - s) ltac:(lia)) as Hq.
  subst w. rewrite (create_context_bounds self s e text Hne). cbv zeta.
  simpl fst. simpl snd.
  set (q := int_half (e - s)) in *.
  set (h := int_half (context_window_size self)) in *.
  set (L := str_len text) in *.
  set (lo := Z.max 0 (q + s - h - Z.max 0 (q + s + h - L))).
  set (hi := Z.min L (q + s + h + Z.max 0 (- (q + s - h)))).
  assert (Hlo : 0 <= lo /\ lo <= s) by (subst lo; lia).
  assert (Hhi : e <= hi /\ hi <= L) by (subst hi; lia).
  split; [lia|]. split; [lia|].
  apply str_slice_slice; subst L; lia.
Qed.

(** ** [answers_to_json] over lists of candidates *)

Lemma answers_loop_acc (self : QAPred) (id : string) (squad : bool)
    (todo : list QACandidate) :
  forall ret : list json,
  answers_loop self id squad todo ret
  = (r <- answers_loop self id squad todo [] ;; Ok (ret ++ r)%list).
Proof.
  induction todo as [|c todo IH]; intros ret; simpl.
  - now rewrite app_nil_r.
  - destruct (answer_record self id squad c) as [curr|x]; simpl;
      [|reflexivity].
    rewrite (IH (ret ++ [curr])%list), (IH [curr]).
    destruct (answers_loop self id squad todo []) as [r|x]; simpl;
      [|reflexivity].
    now rewrite <- app_assoc.
Qed.

Lemma answers_loop_app (self : QAPred) (id : string) (squad : bool)
    (l1 l2 : list QACandidate) :
  forall ret : list json,
  answers_loop self id squad (l1 ++ l2)%list ret
  = (r1 <- answers_loop self id squad l1 ret ;;
     answers_loop self id squad l2 r1).
Proof.
  induction l1 as [|c l1 IH]; intros ret; simpl; [reflexivity|].
  destruct (answer_record self id squad c) as [curr|x]; simpl;
    [apply IH|reflexivity].
Qed.

Lemma answers_loop_with_prediction (self : QAPred) (id : string)
    (squad : bool) (l todo : list QACandidate) :
  forall ret : list json,
  answers_loop (with_prediction l self) id squad todo ret
  = answers_loop self id squad todo ret.
Proof.
  induction todo as [|c todo IH]; intros ret; simpl; [reflexivity|].
  change (answer_record (with_prediction l self) id squad c)
    with (answer_record self id squad c).
  destruct (answer_record self id squad c); simpl; [apply IH|reflexivity].
Qed.

Lemma answers_loop_map (self : QAPred) (id : string) (squad : bool)
    (f : QACandidate -> json) (todo : list QACandidate) :
  Forall (fun c => answer_record self id squad c = Ok (f c)) todo ->
  forall ret : list json,
  answers_loop self id squad todo ret = Ok (ret ++ map f todo)%list.
Proof.
  induction 1 as [|c todo Hc _ IH]; intros ret; simpl.
  - now rewrite app_nil_r.
  - rewrite Hc. simpl. rewrite IH, <- app_assoc. reflexivity.
Qed.

(** The records of a list of candidates split in two are the records of
    the first part followed by those of the second; if one part raises, so
    does the whole, with the exception of the first part if that raises. *)
Theorem answers_to_json_app (self : QAPred) (id_ : string) (squad : bool)
    (l1 l2 : list QACandidate) :
  answers_to_json (with_prediction (l1 ++ l2) self) id_ squad
  = (a <- answers_to_json (with_prediction l1 self) id_ squad ;;
     b <- answers_to_json (with_prediction l2 self) id_ squad ;;
     Ok (a ++ b)%list).
Proof.
  unfold answers_to_json. simpl prediction.
  rewrite !answers_loop_with_prediction, answers_loop_app.
  destruct (answers_loop self id_ squad l1 []) as [a|x]; simpl;
    [|reflexivity].
  apply answers_loop_acc.
Qed.

(** [answers_to_json] and [to_json] raise the exception of the first
    candidate on which [span_to_string] raises; the candidates after it
    are not looked at.  The window size and the lengths of the spans
    resolved before that candidate are in the range where [int(x / 2)] is
    exact, so that [create_context] returns for them. *)
Theorem answers_to_json_first_failure
    (self : QAPred) (id_ : string) (squad : bool)
    (pre post : list QACandidate) (c : QACandidate) (x : exn) :
  float_exact (context_window_size self) ->
  Forall (exact_span self) pre ->
  prediction self = (pre ++ c :: post)%list ->
  Forall (fun c' => exists r,
            span_to_string c' (token_offsets self) (pred_context self)
            = Ok r) pre ->
  span_to_string c (token_offsets self) (pred_context self) = Raise x ->
  answers_to_json self id_ squad = Raise x
  /\ to_json self squad = Raise x.
Proof.
  intros _ _ Hp Hpre Hc.
  assert (H : forall i, answers_to_json self i squad = Raise x).
  { intros i. unfold answers_to_json. rewrite Hp, answers_loop_app.
    assert (Hrec : Forall (fun c' => exists r,
                             answer_record self i squad c' = Ok r) pre).
    { eapply Forall_impl; [|exact Hpre]. intros c' [[[t s] e] Hc'].
      eexists. apply (answer_record_ok self i squad c' t s e Hc'). }
    destruct (answers_loop_ok self i squad pre Hrec []) as (recs & -> & _).
    simpl. now rewrite (answer_record_raise self i squad c x Hc). }
  split; [apply H|]. unfold to_json. now rewrite H.
Qed.

Lemma answer_record_squad (self : QAPred) (id : string) (c : QACandidate) :
  answer_record self id true c
  = match answer_record self id false c with
    | Ok r => Ok (squad_record r)
    | Raise x => Raise x
    end.
Proof.
  unfold answer_record.
  destruct (span_to_string c (token_offsets self) (pred_context self))
    as [[[t s] e]|x]; simpl; [|reflexivity].
  destruct (create_context self s e (pred_context self)) as [[cs a] b].
  destruct (answer c) as [ans|]; simpl; [|reflexivity].
  destruct (ans =? "no_answer")%string; reflexivity.
Qed.

Lemma answers_loop_squad (self : QAPred) (id : string)
    (todo : list QACandidate) :
  forall ret : list json,
  answers_loop self id true todo (map squad_record ret)
  = match answers_loop self id false todo ret with
    | Ok out => Ok (map squad_record out)
    | Raise x => Raise x
    end.
Proof.
  induction todo as [|c todo IH]; intros ret; simpl; [reflexivity|].
  rewrite answer_record_squad.
  destruct (answer_record self id false c) as [r|x]; simpl; [|reflexivity].
  rewrite <- IH, map_app. reflexivity.
Qed.

(** The SQuAD format differs from the default one in the answer field
    only: [answers_to_json] with [squad] set raises when the default call
    raises, and else returns the default records with the answer
    "no_answer" replaced by the empty string and everything else, the
    context string included, unchanged. *)
Theorem answers_to_json_squad (self : QAPred) (id_ : string) :
  answers_to_json self id_ true
  = match answers_to_json self id_ false with
    | Ok out => Ok (map squad_record out)
    | Raise x => Raise x
    end.
Proof.
  unfold answers_to_json. apply (answers_loop_squad self id_ _ []).
Qed.

(** ** From the candidate to its record *)

Lemma add_answer_fields (c : QACandidate) (s : string) :
  answer (fst (add_answer c s))
  = Some (if (s =? "")%string then "no_answer" else s)
  /\ score (fst (add_answer c s)) = score c.
Proof.
  unfold add_answer. destruct (s =? "")%string; simpl.
  - destruct (negb _ || negb _); split; reflexivity.
  - destruct ((_ =? -1) || (_ =? -1)); split; reflexivity.
Qed.

(** The answer written in a record is the attribute [answer] of the
    candidate, not the string [span_to_string] resolves: a candidate whose
    answer was never set is written with answer [None], and a candidate
    that received the resolved string through [add_answer] is written with
    that string, or with "no_answer" (the empty string in SQuAD format)
    when the resolved string is empty; the offsets written are the
    character bounds resolved in both cases.  The window size and the
    length of the span are in the range where [int(x / 2)] is exact. *)
Theorem answer_record_after_add_answer
    (self : QAPred) (id_ : string) (squad : bool) (c : QACandidate)
    (t : string) (s e : Z) :
  float_exact (context_window_size self) ->
  float_exact (e - s) ->
  span_to_string c (token_offsets self) (pred_context self) = Ok (t, s, e) ->
  let w := create_context self s e (pred_context self) in
  let written :=
    if (t =? "")%string || (t =? "no_answer")%string
    then (if squad then "" else "no_answer") else t in
  answer_record self id_ squad (fst (add_answer c t))
  = Ok (JDict [("score", JNum (score c));
               ("probability", JNull);
               ("answer", JStr written);
               ("offset_answer_start", JInt s);
               ("offset_answer_end", JInt e);
               ("context", JStr (fst (fst w)));
               ("offset_context_start", JInt (snd (fst w)));
               ("offset_context_end", JInt (snd w));
               ("document_id", JStr id_)])
  /\ (answer c = None ->
      answer_record self id_ squad c
      = Ok (JDict [("score", JNum (score c));
                   ("probability", JNull);
                   ("answer", JNull);
                   ("offset_answer_start", JInt s);
                   ("offset_answer_end", JInt e);
                   ("context", JStr (fst (fst w)));
                   ("offset_context_start", JInt (snd (fst w)));
                   ("offset_context_end", JInt (snd w));
                   ("document_id", JStr id_)])).
Proof.
  intros _ _ H w written. split.
  - assert (H' : span_to_string (fst (add_answer c t)) (token_offsets self)
                   (pred_context self) = Ok (t, s, e)).
    { rewrite <- H. unfold add_answer. destruct (t =? "")%string; simpl.
      - destruct (negb _ || negb _); reflexivity.
      - destruct ((_ =? -1) || (_ =? -1)); reflexivity. }
    rewrite (answer_record_ok self id_ squad _ t s e H'). cbv zeta.
    destruct (add_answer_fields c t) as [-> ->]. fold w.
    subst written. unfold is_squad_no_answer.
    destruct (String.eqb_spec t "") as [->|Hne]; simpl.
    + destruct squad; reflexivity.
    + destruct (t =? "no_answer")%string eqn:E; destruct squad; simpl;
        try reflexivity.
      apply String.eqb_eq in E. now subst.
  - intros Hn.
    rewrite (answer_record_ok self id_ squad c t s e H). cbv zeta.
    rewrite Hn. unfold is_squad_no_answer. rewrite andb_false_r.
    reflexivity.
Qed.

(** An aggregate whose candidates are all no-answers in token units is
    serialised without reading the token offsets, the text or the window
    size: each record has the answer offsets (0, 0), the empty context and
    the context offsets (0, 0). *)
Theorem answers_to_json_no_answers
    (self : QAPred) (id_ : string) (squad : bool) :
  Forall (fun c => offset_unit c = "token"
                   /\ offset_answer_start c = -1
                   /\ offset_answer_end c = -1) (prediction self) ->
  answers_to_json self id_ squad
  = Ok (map (fun c =>
               JDict [("score", JNum (score c));
                      ("probability", JNull);
                      ("answer",
                       if is_squad_no_answer squad (answer c) then JStr ""
                       else json_of_opt_str (answer c));
                      ("offset_answer_start", JInt 0);
                      ("offset_answer_end", JInt 0);
                      ("context", JStr "");
                      ("offset_context_start", JInt 0);
                      ("offset_context_end", JInt 0);
                      ("document_id", JStr id_)])
          (prediction self)).
Proof.
  intros H. unfold answers_to_json.
  rewrite (answers_loop_map self id_ squad
             (fun c =>
                JDict [("score", JNum (score c));
                       ("probability", JNull);
                       ("answer",
                        if is_squad_no_answer squad (answer c) then JStr ""
                        else json_of_opt_str (answer c));
                       ("offset_answer_start", JInt 0);
                       ("offset_answer_end", JInt 0);
                       ("context", JStr "");
                       ("offset_context_start", JInt 0);
                       ("offset_context_end", JInt 0);
                       ("document_id", JStr id_)])); [reflexivity|].
  eapply Forall_impl; [|exact H]. intros c (Hu & Hs & He). simpl.
  assert (Hsp : span_to_string c (token_offsets self) (pred_context self)
                = Ok ("", 0, 0)).
  { unfold span_to_string. rewrite Hu, Hs, He. reflexivity. }
  rewrite (answer_record_ok self id_ squad c "" 0 0 Hsp). reflexivity.
Qed.

Lemma well_formed_span (c : QACandidate) (toks : list Z) (text : string) :
  nondecreasing toks = true ->
  offsets_in_text toks text = true ->
  well_formed_candidate (list_len toks) c = true ->
  exists (t : string) (s e : Z),
    span_to_string c toks text = Ok (t, s, e)
    /\ 0 <= s /\ s <= e /\ e <= str_len text.
Proof.
  intros Hnd Hin Hwf. unfold well_formed_candidate in Hwf.
  apply andb_true_iff in Hwf. destruct Hwf as [Hu Hk].
  apply String.eqb_eq in Hu. apply orb_true_iff in Hk.
  pose proof (str_len_nonneg text) as HL.
  destruct Hk as [Hk|Hk].
  - unfold is_no_answer_span in Hk. exists "", 0, 0.
    unfold span_to_string. rewrite Hu, Hk. simpl. repeat split; lia.
  - unfold is_token_span in Hk. rewrite !andb_true_iff in Hk.
    destruct Hk as [[H0 Hle] Hn].
    apply Z.leb_le in H0. apply Z.leb_le in Hle. apply Z.ltb_lt in Hn.
    assert (Hs : ~ (offset_answer_start c = -1
                    /\ offset_answer_end c = -1)) by lia.
    pose proof (span_to_string_in_range c toks text Hu Hs) as Hr.
    cbv zeta in Hr. rewrite Hr by lia. clear Hr.
    unfold list_len in *.
    set (i := Z.to_nat (offset_answer_start c)).
    set (j := Z.to_nat (offset_answer_end c + 1)).
    assert (Hi : 0 <= nth i toks 0 <= str_len text)
      by (apply offsets_in_text_nth; [assumption|subst i; lia]).
    do 3 eexists. split; [reflexivity|].
    destruct (Z.leb_spec (Z.of_nat (List.length toks))
                (offset_answer_end c + 1)) as [Hc|Hc]; [lia|].
    assert (Hj : 0 <= nth j toks 0 <= str_len text)
      by (apply offsets_in_text_nth; [assumption|subst j; lia]).
    assert (Hij : nth i toks 0 <= nth j toks 0)
      by (apply nondecreasing_nth; [assumption|subst i j; lia..]).
    lia.
Qed.

Lemma window_in_text (self : QAPred) (s e : Z) (text : string) :
  0 <= context_window_size self ->
  0 <= s -> s <= e -> e <= str_len text ->
  let w := create_context self s e text in
  0 <= snd (fst w) /\ snd (fst w) <= snd w /\ snd w <= str_len text
  /\ str_len (fst (fst w)) = snd w - snd (fst w)
  /\ (e - s <= 2 * int_half (context_window_size self) ->
      snd (fst w) <= s /\ e <= snd w).
Proof.
  intros Hw Hs Hse He w.
  pose proof (int_half_nonneg (context_window_size self) Hw) as Hh.
  pose proof (int_half_nonneg (e - s) ltac:(lia)) as Hq.
  destruct (Z.eq_dec e 0) as [E|E].
  - assert (s = 0) by lia. subst w s e. unfold create_context. simpl.
    repeat split; lia.
  - assert (Hne : ~ (s = 0 /\ e = 0)) by lia.
    pose proof (create_context_bounds self s e text Hne) as Hb.
    cbv zeta in Hb. subst w. rewrite Hb. simpl fst. simpl snd.
    set (q := int_half (e - s)) in *.
    set (h := int_half (context_window_size self)) in *.
    set (L := str_len text) in *.
    repeat split; try lia. apply str_slice_len; lia.
Qed.

(** For an aggregate with a window size that is not negative, token
    offsets that do not decrease and lie inside the text, and candidates
    in token units that are each the pair (-1, -1) or a span
    [0 <= start <= end < n_tokens], [answers_to_json] does not raise, and
    in every record [0 <= offset_answer_start <= offset_answer_end <= len]
    and [0 <= offset_context_start <= offset_context_end <= len], the
    context has [offset_context_end - offset_context_start] characters,
    and the context window encloses the answer whenever the answer is at
    most [2 * int(window_size / 2)] characters long. *)
Theorem answers_to_json_well_formed
    (self : QAPred) (id_ : string) (squad : bool) :
  float_exact (context_window_size self) ->
  float_exact (str_len (pred_context self)) ->
  0 <= context_window_size self ->
  nondecreasing (token_offsets self) = true ->
  offsets_in_text (token_offsets self) (pred_context self) = true ->
  forallb (well_formed_candidate (list_len (token_offsets self)))
    (prediction self) = true ->
  exists out,
    answers_to_json self id_ squad = Ok out
    /\ Forall2
         (fun c rec =>
            exists (a : json) (s e : Z) (cs : string) (c0 c1 : Z),
              rec = JDict [("score", JNum (score c));
                           ("probability", JNull);
                           ("answer", a);
                           ("offset_answer_start", JInt s);
                           ("offset_answer_end", JInt e);
                           ("context", JStr cs);
                           ("offset_context_start", JInt c0);
                           ("offset_context_end", JInt c1);
                           ("document_id", JStr id_)]
              /\ 0 <= s /\ s <= e /\ e <= str_len (pred_context self)
              /\ 0 <= c0 /\ c0 <= c1 /\ c1 <= str_len (pred_context self)
              /\ str_len cs = c1 - c0
              /\ (e - s <= 2 * int_half (context_window_size self) ->
                  c0 <= s /\ e <= c1))
         (prediction self) out.
Proof.
  intros _ _ Hw Hnd Hin Hwf. unfold answers_to_json.
  rewrite forallb_forall in Hwf.
  assert (Hrec : forall c, In c (prediction self) ->
            exists t s e,
              span_to_string c (token_offsets self) (pred_context self)
              = Ok (t, s, e)
              /\ 0 <= s /\ s <= e /\ e <= str_len (pred_context self)).
  { intros c Hc. apply well_formed_span; auto. }
  clear Hwf.
  assert (Hgen : forall ret, exists recs,
            answers_loop self id_ squad (prediction self) ret
            = Ok (ret ++ recs)%list
            /\ Forall2
                 (fun c rec =>
                    exists (a : json) (s e : Z) (cs : string) (c0 c1 : Z),
                      rec = JDict [("score", JNum (score c));
                                   ("probability", JNull);
                                   ("answer", a);
                                   ("offset_answer_start", JInt s);
                                   ("offset_answer_end", JInt e);
                                   ("context", JStr cs);
                                   ("offset_context_start", JInt c0);
                                   ("offset_context_end", JInt c1);
                                   ("document_id", JStr id_)]
                      /\ 0 <= s /\ s <= e
                      /\ e <= str_len (pred_context self)
                      /\ 0 <= c0 /\ c0 <= c1
                      /\ c1 <= str_len (pred_context self)
                      /\ str_len cs = c1 - c0
                      /\ (e - s
                          <= 2 * int_half (context_window_size self) ->
                          c0 <= s /\ e <= c1))
                 (prediction self) recs).
  { induction (prediction self) as [|c l IH]; intros ret.
    - exists []. rewrite app_nil_r. split; [reflexivity|constructor].
    - destruct (Hrec c (or_introl eq_refl))
        as (t & s & e & Hsp & H0 & Hse & He).
      pose proof (answer_record_ok self id_ squad c t s e Hsp) as Hok.
      cbv zeta in Hok.
      pose proof (window_in_text self s e (pred_context self) Hw H0 Hse He)
        as Hwin. cbv zeta in Hwin.
      match type of Hok with
      | _ = Ok ?r =>
          destruct (IH (fun c' Hc' => Hrec c' (or_intror Hc'))
                      (ret ++ [r])%list) as (recs & Hloop & HF);
          exists (r :: recs)
      end.
      simpl. rewrite Hok. simpl. rewrite Hloop.
      rewrite <- app_assoc. split; [reflexivity|].
      constructor; [|exact HF].
      do 6 eexists. split; [reflexivity|]. intuition lia. }
  destruct (Hgen []) as (out & Ho & HF). exists out. split; assumption.
Qed.

(** For a candidate that is the pair (-1, -1) or has two offsets that are
    not negative, [add_answer] applied to the string [span_to_string]
    resolved logs nothing, except when a span resolves to the empty
    string (a span of white space only, or an empty slice): then one
    error is logged and the answer becomes "no_answer".  A pair (-1, -1)
    always ends with the answer "no_answer" and an empty log. *)
Theorem add_answer_of_resolved_span
    (c : QACandidate) (toks : list Z) (text : string)
    (t : string) (s e : Z) :
  span_to_string c toks text = Ok (t, s, e) ->
  (offset_answer_start c = -1 /\ offset_answer_end c = -1)
  \/ (0 <= offset_answer_start c /\ 0 <= offset_answer_end c) ->
  (snd (add_answer c t) = [] <->
   (offset_answer_start c = -1 /\ offset_answer_end c = -1) \/ t <> "")
  /\ (t = "" -> answer (fst (add_answer c t)) = Some "no_answer")
  /\ (offset_answer_start c = -1 /\ offset_answer_end c = -1 -> t = "").
Proof.
  intros H Hwf.
  assert (Hsent : offset_answer_start c = -1 /\ offset_answer_end c = -1 ->
                  t = "").
  { intros [Hs He]. unfold span_to_string in H.
    destruct (negb (offset_unit c =? "token")%string); [discriminate|].
    rewrite Hs, He in H. simpl in H. congruence. }
  split; [|split; [|exact Hsent]].
  - destruct Hwf as [[Hs He]|[Hs He]].
    + rewrite (Hsent (conj Hs He)). unfold add_answer. simpl.
      rewrite Hs, He. simpl. split; [intros _; left; tauto|reflexivity].
    + unfold add_answer.
      destruct (String.eqb_spec t "") as [Ht|Ht]; simpl.
      * destruct (Z.eqb_spec (offset_answer_start c) (-1)); [lia|].
        simpl. split; [discriminate|].
        intros [[? ?]|?]; [lia|contradiction].
      * destruct (Z.eqb_spec (offset_answer_start c) (-1)); [lia|].
        destruct (Z.eqb_spec (offset_answer_end c) (-1)); [lia|].
        simpl. split; [intros _; right; exact Ht|reflexivity].
  - intros ->. unfold add_answer. simpl.
    destruct (negb _ || negb _); reflexivity.
Qed.

End Predictions.








(** * The theorems at concrete inputs

    The floating-point values are taken in [Z] here. *)

(** C3 at the candidate with answer "Paris" and type "span", label "yes". *)
Lemma add_cls_override_witness :
  let c := mkQACandidate Z "span" 9 None (Some "Paris") 3 3 None None None
             None None None "token" "passage" None None in
  ("yes" = "yes" \/ "yes" = "no")
  /\ answer Z c <> Some "no_answer"
  /\ answer_type Z (add_cls Z c "yes") = "yes"
  /\ answer Z (add_cls Z c "yes") = Some "yes"
  /\ answer_support Z (add_cls Z c "yes") = Some "Paris".
Proof.
  intros c.
  assert (Hl : "yes" = "yes" \/ "yes" = "no") by (left; reflexivity).
  assert (Ha : answer Z c <> Some "no_answer") by discriminate.
  destruct (add_cls_override Z c "yes") as [H _].
  rewrite (H Hl Ha). repeat split; try assumption.
Defined.

(** C10 at a fresh no-answer candidate, label "yes". *)
Lemma add_cls_guard_reads_answer_only_witness :
  let c := QACandidate_init Z "no_answer" 4 (-1) (-1) "token" "passage"
             None None None in
  answer Z c = None
  /\ answer_type Z (add_cls Z c "yes") = "yes"
  /\ answer Z (add_cls Z c "yes") = Some "yes"
  /\ offset_answer_support_start Z (add_cls Z c "yes") = Some (-1).
Proof.
  intros c. destruct (add_cls_guard_reads_answer_only Z) as [_ H].
  rewrite (H c "yes" (or_introl eq_refl) eq_refl eq_refl eq_refl eq_refl).
  repeat split.
Defined.

(** C4 at a no-answer candidate, with a table and a text that play no
    part. *)
Lemma span_to_string_no_answer_witness :
  let c := QACandidate_init Z "no_answer" 4 (-1) (-1) "token" "passage"
             None None None in
  offset_unit Z c = "token"
  /\ span_to_string Z c [0; 6] "hello world" = Ok ("", 0, 0).
Proof.
  intros c. split; [reflexivity|].
  destruct (span_to_string_no_answer Z c [0; 6] "hello world") as [_ H].
  apply H; reflexivity.
Defined.

(** C5 at the offsets (5, 5) with six tokens and a text of 22 characters. *)
Lemma span_to_string_resolves_witness :
  let c := QACandidate_init Z "span" 4 5 5 "token" "passage"
             None None None in
  span_to_string Z c [0; 4; 8; 12; 16; 20] "what is the answer: 42"
  = Ok ("42", 20, 22).
Proof.
  intros c.
  assert (Hu : offset_unit Z c = "token") by reflexivity.
  assert (Hs : ~ (offset_answer_start Z c = -1 /\ offset_answer_end Z c = -1)).
  { intros [H _]. discriminate H. }
  destruct (span_to_string_resolves Z c [0; 4; 8; 12; 16; 20]
              "what is the answer: 42" Hu Hs) as (_ & _ & _ & _ & H).
  rewrite (H eq_refl eq_refl eq_refl eq_refl). reflexivity.
Defined.

(** C2, as stated, at the first token of "hello world": the string
    returned has 5 characters, the two table entries differ by 6. *)
Lemma span_to_string_strips_space :
  let c := QACandidate_init Z "span" 4 0 0 "token" "passage"
             None None None in
  let toks := [0; 6] in
  offset_unit Z c = "token"
  /\ offset_answer_start Z c <= offset_answer_end Z c < list_len toks
  /\ span_to_string Z c toks "hello world" = Ok ("hello", 0, 6)
  /\ str_len "hello" <> nth 1 toks 0 - nth 0 toks 0.
Proof.
  intros c toks. split; [reflexivity|].
  split; [unfold c, toks, list_len; simpl; lia|].
  split; [reflexivity|]. unfold toks, str_len. simpl. lia.
Defined.

(** C2 (as the code has it) at the second token of "hello world". *)
Lemma span_to_string_char_span_witness :
  let c := QACandidate_init Z "span" 4 1 1 "token" "passage"
             None None None in
  span_to_string Z c [0; 6] "hello world" = Ok ("world", 6, 11).
Proof.
  intros c.
  assert (Hu : offset_unit Z c = "token") by reflexivity.
  assert (H0 : 0 <= offset_answer_start Z c) by (simpl; lia).
  assert (H1 : offset_answer_start Z c <= offset_answer_end Z c)
    by (simpl; lia).
  assert (H2 : offset_answer_end Z c < list_len [0; 6]) by reflexivity.
  destruct (span_to_string_char_span Z c [0; 6] "hello world" Hu H0 H1 H2)
    as [H _].
  rewrite H. reflexivity.
Defined.

(** C7, as stated, at a span candidate: after [add_answer] with the empty
    string the answer type is still "span". *)
Lemma add_answer_keeps_answer_type :
  let c := QACandidate_init Z "span" 4 3 5 "token" "passage"
             None None None in
  answer_type Z (fst (add_answer Z c "")) = "span"
  /\ answer_type Z (fst (add_answer Z c "")) <> "no_answer"
  /\ answer Z (fst (add_answer Z c "")) = Some "no_answer".
Proof.
  intros c. split; [reflexivity|]. split; [discriminate|reflexivity].
Defined.

(** C7 (as the code has it) at the same candidate. *)
Lemma add_answer_sets_answer_text_witness :
  let c := QACandidate_init Z "span" 4 3 5 "token" "passage"
             None None None in
  answer Z (fst (add_answer Z c "")) = Some "no_answer"
  /\ snd (add_answer Z c "") = [EmptyAnswerWithOffsets 3 5 None]
  /\ snd (add_answer Z c "Paris") = [].
Proof.
  intros c.
  destruct (add_answer_sets_answer_text Z c "") as (H & He & _).
  destruct (add_answer_sets_answer_text Z c "Paris") as (_ & _ & Hn).
  split; [rewrite H; reflexivity|]. split.
  - apply (He eq_refl). intros [E _]. discriminate E.
  - apply Hn; discriminate.
Defined.

(** C1, as stated, at window size 21: the span (10, 12) lies inside a text
    of 31 characters, and the window returned is 20 characters wide. *)
Lemma create_context_width_odd_window :
  let text := "The capital of France is Paris." in
  let self := mkQAPred Z "d1" [] text "What is the capital of France?"
                [0; 4; 12; 15; 22; 25; 30] 21 "document" [] None 0 1 in
  0 < 10 /\ 10 < 12 /\ 12 < str_len text
  /\ context_window_size Z self < str_len text
  /\ create_context Z self 10 12 text = ("he capital of France", 1, 21)
  /\ window_width (create_context Z self 10 12 text)
     <> context_window_size Z self.
Proof.
  intros text self. unfold str_len. simpl.
  repeat split; lia.
Defined.

(** C1 (as the code has it) at window size 20 and the span of "Paris": the
    six characters cut off at the end of the text are added at the start. *)
Lemma create_context_width_witness :
  let text := "The capital of France is Paris." in
  let self := mkQAPred Z "d1" [] text "What is the capital of France?"
                [0; 4; 12; 15; 22; 25; 30] 20 "document" [] None 0 1 in
  create_context Z self 25 30 text = (" of France is Paris.", 11, 31)
  /\ window_width (create_context Z self 25 30 text) = 20.
Proof.
  intros text self. split; [reflexivity|].
  destruct (create_context_width Z) as [H _].
  assert (F1 : float_exact (context_window_size Z self))
    by (unfold float_exact; simpl; lia).
  assert (F2 : float_exact (str_len text))
    by (unfold float_exact, str_len; simpl; lia).
  assert (H1 : 0 < 25) by lia.
  assert (H2 : 25 < 30) by lia.
  assert (H3 : 30 < str_len text) by (unfold str_len; simpl; lia).
  assert (H4 : context_window_size Z self < str_len text)
    by (unfold str_len; simpl; lia).
  destruct (H self 25 30 text F1 F2 H1 H2 H3 H4) as (_ & Hev & _).
  apply Hev. reflexivity.
Defined.

(** C6, as stated, at an aggregate whose only candidate has its offsets in
    characters: [answers_to_json] raises and returns no record. *)
Lemma answers_to_json_raises_on_char_offsets :
  let c := QACandidate_init Z "span" 4 25 30 "char" "document"
             None None None in
  let self := mkQAPred Z "d1" [c] "The capital of France is Paris."
                "What is the capital of France?"
                [0; 4; 12; 15; 22; 25; 30] 20 "document" [] None 0 1 in
  List.length (prediction Z self) = 1%nat
  /\ answers_to_json Z self "d1" false = Raise AssertionError
  /\ to_json Z self false = Raise AssertionError
  /\ ~ (exists out, answers_to_json Z self "d1" false = Ok out).
Proof.
  intros c self. repeat split. intros [out H]. discriminate H.
Defined.

(** C6 (as the code has it) at an aggregate with the span "Paris" and a
    no-answer candidate, in SQuAD format. *)
Lemma answers_to_json_records_witness :
  let c1 := mkQACandidate Z "span" 9 (Some 1) (Some "Paris") 5 5
              None None None None None None "token" "document" None None in
  let c2 := mkQACandidate Z "no_answer" 2 (Some 0) (Some "no_answer")
              (-1) (-1) None None None None None None "token" "document"
              None None in
  let self := mkQAPred Z "d1" [c1; c2] "The capital of France is Paris."
                "What is the capital of France?"
                [0; 4; 12; 15; 22; 25; 30] 20 "document" [] None 0 1 in
  Forall (fun c => exists r,
            span_to_string Z c (token_offsets Z self) (pred_context Z self)
            = Ok r) (prediction Z self)
  /\ answers_to_json Z self "d1" true =
     Ok [JDict Z [("score", JNum Z 9);
                  ("probability", JNull Z);
                  ("answer", JStr Z "Paris");
                  ("offset_answer_start", JInt Z 25);
                  ("offset_answer_end", JInt Z 30);
                  ("context", JStr Z " of France is Paris.");
                  ("offset_context_start", JInt Z 11);
                  ("offset_context_end", JInt Z 31);
                  ("document_id", JStr Z "d1")];
         JDict Z [("score", JNum Z 2);
                  ("probability", JNull Z);
                  ("answer", JStr Z "");
                  ("offset_answer_start", JInt Z 0);
                  ("offset_answer_end", JInt Z 0);
                  ("context", JStr Z "");
                  ("offset_context_start", JInt Z 0);
                  ("offset_context_end", JInt Z 0);
                  ("document_id", JStr Z "d1")]]
  /\ exists out, answers_to_json Z self "d1" true = Ok out
                 /\ List.length out = 2%nat.
Proof.
  intros c1 c2 self.
  assert (HF : Forall (fun c => exists r,
                         span_to_string Z c (token_offsets Z self)
                           (pred_context Z self) = Ok r)
                 (prediction Z self)).
  { repeat constructor; eexists; reflexivity. }
  split; [exact HF|]. split; [reflexivity|].
  assert (F1 : float_exact (context_window_size Z self))
    by (unfold float_exact; simpl; lia).
  assert (F2 : Forall (exact_span Z self) (prediction Z self)).
  { repeat constructor; intros t s e Hsp; inversion Hsp;
      unfold float_exact; simpl; lia. }
  destruct (answers_to_json_records Z self "d1" true F1 F2) as [H _].
  destruct (H HF) as (out & Ho & Hl & _).
  exists out. split; [exact Ho|exact Hl].
Defined.

(** C9 at an aggregate whose candidate has probability 7. *)
Lemma answers_to_json_probability_null_witness :
  let c := mkQACandidate Z "span" 9 (Some 7) (Some "Paris") 5 5
             None None None None None None "token" "document" None None in
  let self := mkQAPred Z "d1" [c] "The capital of France is Paris."
                "What is the capital of France?"
                [0; 4; 12; 15; 22; 25; 30] 20 "document" [] None 0 1 in
  probability Z c = Some 7
  /\ exists out,
       answers_to_json Z self "d1" false = Ok out
       /\ List.length out = 1%nat
       /\ Forall (fun rec => exists items,
                    rec = JDict Z items
                    /\ dict_get Z items "probability" = Some (JNull Z)) out.
Proof.
  intros c self. split; [reflexivity|].
  eexists. split; [reflexivity|].
  apply (proj2 (answers_to_json_probability_null Z self "d1" false)).
  reflexivity.
Defined.

(** * The further properties at concrete inputs *)

Lemma add_cls_twice_witness :
  let c := mkQACandidate Z "span" 9 None (Some "Paris") 5 5 None None None
             None None None "token" "passage" None None in
  answer Z c <> Some "no_answer"
  /\ answer_support Z (add_cls Z (add_cls Z c "yes") "no") = Some "yes"
  /\ answer Z (add_cls Z (add_cls Z c "yes") "no") = Some "no".
Proof.
  intros c.
  assert (Ha : answer Z c <> Some "no_answer") by discriminate.
  split; [exact Ha|].
  rewrite (add_cls_twice Z c "yes" "no" (or_introl eq_refl)
             (or_intror eq_refl) Ha).
  split; reflexivity.
Defined.

Lemma add_cls_after_add_answer_witness :
  let c := QACandidate_init Z "span" 9 5 5 "token" "passage"
             None None None in
  add_cls Z (fst (add_answer Z c "")) "yes" = fst (add_answer Z c "")
  /\ answer_support Z (add_cls Z (fst (add_answer Z c "Paris")) "yes")
     = Some "Paris".
Proof.
  intros c. split.
  - apply (proj1 (add_cls_after_add_answer Z c "" "yes")).
    left. reflexivity.
  - assert (H1 : "Paris" <> "") by discriminate.
    assert (H2 : "Paris" <> "no_answer") by discriminate.
    apply (proj2 (add_cls_after_add_answer Z c "Paris" "yes") H1 H2
             (or_introl eq_refl)).
Defined.

Lemma add_cls_to_doc_level_order_witness :
  let c := mkQACandidate Z "span" 9 None (Some "Paris") 5 5 None None None
             None None None "token" "passage" None None in
  offset_answer_support_start Z (to_doc_level Z (add_cls Z c "yes") 105 105)
  = Some 5
  /\ offset_answer_support_start Z
       (add_cls Z (to_doc_level Z c 105 105) "yes") = Some 105.
Proof.
  intros c.
  assert (Ha : answer Z c <> Some "no_answer") by discriminate.
  destruct (add_cls_to_doc_level_order Z c "yes" 105 105
              (or_introl eq_refl) Ha) as (H1 & _ & H3 & _).
  split; [exact H1|exact H3].
Defined.

Lemma span_to_string_clean_substring_witness :
  let c := QACandidate_init Z "span" 4 0 0 "token" "passage"
             None None None in
  span_to_string Z c [0; 6] "hello world" = Ok ("hello", 0, 6)
  /\ (exists i n : nat, "hello" = substring i n "hello world")
  /\ last_is_space "hello" = false.
Proof.
  intros c.
  assert (H : span_to_string Z c [0; 6] "hello world" = Ok ("hello", 0, 6))
    by reflexivity.
  split; [exact H|].
  destruct (span_to_string_clean_substring Z c [0; 6] "hello world"
              "hello" 0 6 H) as (Hs & _ & Hl & _).
  split; [exact Hs|exact Hl].
Defined.

Lemma span_to_string_bounds_witness :
  let c := QACandidate_init Z "span" 4 3 5 "token" "passage"
             None None None in
  let text := "The capital of France is Paris." in
  exists (t : string) (sc ec : Z),
    span_to_string Z c [0; 4; 12; 15; 22; 25; 30] text = Ok (t, sc, ec)
    /\ 0 <= sc /\ sc <= ec /\ ec <= str_len text
    /\ str_len t <= ec - sc.
Proof.
  intros c text.
  apply (span_to_string_bounds Z c [0; 4; 12; 15; 22; 25; 30] text);
    try reflexivity; simpl; lia.
Defined.

Lemma span_to_string_domain_witness :
  let c := QACandidate_init Z "span" 4 (-1) 2 "token" "passage"
             None None None in
  (exists (t : string) (ec : Z),
     span_to_string Z c [0; 6] "hello world" = Ok (t, 6, ec))
  /\ span_to_string Z c [] "hello world" = Raise IndexError.
Proof.
  intros c.
  assert (Hu : offset_unit Z c = "token") by reflexivity.
  assert (Hs : ~ (offset_answer_start Z c = -1
                  /\ offset_answer_end Z c = -1)).
  { intros [_ H]. discriminate H. }
  split.
  - destruct (span_to_string_domain Z c [0; 6] "hello world" Hu Hs)
      as (_ & _ & _ & H).
    apply H; unfold list_len; simpl; lia.
  - destruct (span_to_string_domain Z c [] "hello world" Hu Hs)
      as (_ & _ & H & _).
    apply H. reflexivity.
Defined.

Lemma create_context_clamped_witness :
  let text := "The capital of France is Paris." in
  let self := mkQAPred Z "d1" [] text "What is the capital of France?"
                [0; 4; 12; 15; 22; 25; 30] 20 "document" [] None 0 1 in
  create_context Z self 100 120 text = (" of France is Paris.", 11, 31)
  /\ snd (create_context Z self 100 120 text)
     - snd (fst (create_context Z self 100 120 text))
     = Z.min (str_len text) (2 * int_half 20).
Proof.
  intros text self. split; [reflexivity|].
  assert (F1 : float_exact (context_window_size Z self))
    by (unfold float_exact; simpl; lia).
  assert (F2 : float_exact (120 - 100)) by (unfold float_exact; simpl; lia).
  assert (Hw : 0 <= context_window_size Z self) by (simpl; lia).
  destruct (create_context_clamped Z self 100 120 text F1 F2 Hw)
    as (_ & _ & _ & _ & H).
  apply H. lia.
Defined.

Lemma create_context_short_text_witness :
  let text := "The capital of France is Paris." in
  let self := mkQAPred Z "d1" [] text "What is the capital of France?"
                [0; 4; 12; 15; 22; 25; 30] 100 "document" [] None 0 1 in
  str_len text <= 2 * int_half (context_window_size Z self)
  /\ create_context Z self 25 30 text = (text, 0, 31).
Proof.
  intros text self.
  assert (Hs : str_len text <= 2 * int_half (context_window_size Z self))
    by (unfold str_len, int_half; simpl; lia).
  split; [exact Hs|].
  assert (F1 : float_exact (context_window_size Z self))
    by (unfold float_exact; simpl; lia).
  assert (F2 : float_exact (30 - 25)) by (unfold float_exact; simpl; lia).
  assert (Hne : ~ (25 = 0 /\ 30 = 0)) by lia.
  exact (create_context_short_text Z self 25 30 text F1 F2 Hne Hs).
Defined.

Lemma create_context_contains_answer_witness :
  let text := "The capital of France is Paris." in
  let self := mkQAPred Z "d1" [] text "What is the capital of France?"
                [0; 4; 12; 15; 22; 25; 30] 20 "document" [] None 0 1 in
  let w := create_context Z self 25 30 text in
  snd (fst w) <= 25 /\ 30 <= snd w
  /\ str_slice (fst (fst w)) (25 - snd (fst w)) (30 - snd (fst w))
     = str_slice text 25 30.
Proof.
  intros text self.
  assert (F1 : float_exact (context_window_size Z self))
    by (unfold float_exact; simpl; lia).
  assert (F2 : float_exact (30 - 25)) by (unfold float_exact; simpl; lia).
  assert (Hne : ~ (25 = 0 /\ 30 = 0)) by lia.
  assert (H0 : 0 <= 25) by lia.
  assert (H1 : 25 <= 30) by lia.
  assert (H2 : 30 <= str_len text) by (unfold str_len; simpl; lia).
  assert (H3 : 30 - 25 <= 2 * int_half (context_window_size Z self))
    by (unfold int_half; simpl; lia).
  exact (create_context_contains_answer Z self 25 30 text
           F1 F2 Hne H0 H1 H2 H3).
Defined.

Lemma answers_to_json_first_failure_witness :
  let c1 := QACandidate_init Z "span" 9 5 5 "token" "document"
              None None None in
  let c2 := QACandidate_init Z "span" 4 25 30 "char" "document"
              None None None in
  let c3 := QACandidate_init Z "span" 2 40 40 "token" "document"
              None None None in
  let self := mkQAPred Z "d1" [c1; c2; c3] "The capital of France is Paris."
                "What is the capital of France?"
                [0; 4; 12; 15; 22; 25; 30] 20 "document" [] None 0 1 in
  span_to_string Z c3 (token_offsets Z self) (pred_context Z self)
  = Raise IndexError
  /\ answers_to_json Z self "d1" false = Raise AssertionError
  /\ to_json Z self false = Raise AssertionError.
Proof.
  intros c1 c2 c3 self. split; [reflexivity|].
  apply (answers_to_json_first_failure Z self "d1" false [c1] [c3] c2
           AssertionError).
  - unfold float_exact. simpl. lia.
  - repeat constructor. intros t s e Hsp. inversion Hsp.
    unfold float_exact. simpl. lia.
  - reflexivity.
  - repeat constructor. eexists. reflexivity.
  - reflexivity.
Defined.

Lemma answer_record_after_add_answer_witness :
  let c := QACandidate_init Z "span" 9 5 5 "token" "document"
             None None None in
  let self := mkQAPred Z "d1" [c] "The capital of France is Paris."
                "What is the capital of France?"
                [0; 4; 12; 15; 22; 25; 30] 20 "document" [] None 0 1 in
  span_to_string Z c (token_offsets Z self) (pred_context Z self)
  = Ok ("Paris", 25, 30)
  /\ answer_record Z self "d1" false (fst (add_answer Z c "Paris"))
     = Ok (JDict Z [("score", JNum Z 9);
                    ("probability", JNull Z);
                    ("answer", JStr Z "Paris");
                    ("offset_answer_start", JInt Z 25);
                    ("offset_answer_end", JInt Z 30);
                    ("context", JStr Z " of France is Paris.");
                    ("offset_context_start", JInt Z 11);
                    ("offset_context_end", JInt Z 31);
                    ("document_id", JStr Z "d1")]).
Proof.
  intros c self.
  assert (H : span_to_string Z c (token_offsets Z self)
                (pred_context Z self) = Ok ("Paris", 25, 30))
    by reflexivity.
  split; [exact H|].
  assert (F1 : float_exact (context_window_size Z self))
    by (unfold float_exact; simpl; lia).
  assert (F2 : float_exact (30 - 25)) by (unfold float_exact; simpl; lia).
  rewrite (proj1 (answer_record_after_add_answer Z self "d1" false c
                    "Paris" 25 30 F1 F2 H)).
  reflexivity.
Defined.

Lemma answers_to_json_no_answers_witness :
  let c1 := QACandidate_init Z "no_answer" 3 (-1) (-1) "token" "document"
              None None None in
  let c2 := mkQACandidate Z "no_answer" 1 None (Some "no_answer")
              (-1) (-1) None None None None None None "token" "document"
              None None in
  let self := mkQAPred Z "d1" [c1; c2] "The capital of France is Paris."
                "What is the capital of France?"
                [0; 4; 12; 15; 22; 25; 30] 20 "document" [] None 0 1 in
  answers_to_json Z self "d1" true
  = Ok [JDict Z [("score", JNum Z 3);
                 ("probability", JNull Z);
                 ("answer", JNull Z);
                 ("offset_answer_start", JInt Z 0);
                 ("offset_answer_end", JInt Z 0);
                 ("context", JStr Z "");
                 ("offset_context_start", JInt Z 0);
                 ("offset_context_end", JInt Z 0);
                 ("document_id", JStr Z "d1")];
        JDict Z [("score", JNum Z 1);
                 ("probability", JNull Z);
                 ("answer", JStr Z "");
                 ("offset_answer_start", JInt Z 0);
                 ("offset_answer_end", JInt Z 0);
                 ("context", JStr Z "");
                 ("offset_context_start", JInt Z 0);
                 ("offset_context_end", JInt Z 0);
                 ("document_id", JStr Z "d1")]].
Proof.
  intros c1 c2 self.
  rewrite (answers_to_json_no_answers Z self "d1" true).
  - reflexivity.
  - repeat constructor.
Defined.

Lemma answers_to_json_well_formed_witness :
  let c1 := QACandidate_init Z "span" 9 5 5 "token" "document"
              None None None in
  let c2 := QACandidate_init Z "no_answer" 3 (-1) (-1) "token" "document"
              None None None in
  let self := mkQAPred Z "d1" [c1; c2] "The capital of France is Paris."
                "What is the capital of France?"
                [0; 4; 12; 15; 22; 25; 30] 20 "document" [] None 0 1 in
  nondecreasing (token_offsets Z self) = true
  /\ offsets_in_text (token_offsets Z self) (pred_context Z self) = true
  /\ forallb (well_formed_candidate Z (list_len (token_offsets Z self)))
       (prediction Z self) = true
  /\ exists out, answers_to_json Z self "d1" false = Ok out.
Proof.
  intros c1 c2 self.
  assert (F1 : float_exact (context_window_size Z self))
    by (unfold float_exact; simpl; lia).
  assert (F2 : float_exact (str_len (pred_context Z self)))
    by (unfold float_exact, str_len; simpl; lia).
  assert (Hw : 0 <= context_window_size Z self) by (simpl; lia).
  assert (H1 : nondecreasing (token_offsets Z self) = true) by reflexivity.
  assert (H2 : offsets_in_text (token_offsets Z self) (pred_context Z self)
               = true) by reflexivity.
  assert (H3 : forallb
                 (well_formed_candidate Z (list_len (token_offsets Z self)))
                 (prediction Z self) = true) by reflexivity.
  split; [exact H1|]. split; [exact H2|]. split; [exact H3|].
  destruct (answers_to_json_well_formed Z self "d1" false F1 F2 Hw H1 H2 H3)
    as (out & Ho & _).
  exists out. exact Ho.
Defined.

Lemma add_answer_of_resolved_span_witness :
  let c := QACandidate_init Z "span" 9 5 5 "token" "document"
             None None None in
  let text := "The capital of France is Paris." in
  span_to_string Z c [0; 4; 12; 15; 22; 25; 30] text = Ok ("Paris", 25, 30)
  /\ snd (add_answer Z c "Paris") = [].
Proof.
  intros c text.
  assert (H : span_to_string Z c [0; 4; 12; 15; 22; 25; 30] text
              = Ok ("Paris", 25, 30)) by reflexivity.
  split; [exact H|].
  assert (Hwf : (offset_answer_start Z c = -1 /\ offset_answer_end Z c = -1)
                \/ (0 <= offset_answer_start Z c
                    /\ 0 <= offset_answer_end Z c))
    by (right; simpl; lia).
  destruct (add_answer_of_resolved_span Z c [0; 4; 12; 15; 22; 25; 30] text
              "Paris" 25 30 H Hwf) as ((_ & Hlog) & _).
  apply Hlog. right. discriminate.
Defined.
